(** * pg_pathman: the SQL-callable partition routines of [pl_funcs.c]

    A shallow embedding of the range-partition lookup/creation routine, the
    range metadata queries and the hash router of [src/pl_funcs.c], together
    with the properties the design document states about them.

    A [Datum] is a machine word and an [Oid] an unsigned 32-bit integer, both
    carried by [Z].  Functions that touch the backend (catalog reads, LWLocks,
    the partition-creating collaborator, [elog(ERROR, ...)]) are written in a
    small command monad [Prog]; [run] executes one call from start to end and
    [interleave] executes several backends under a schedule. *)

From Stdlib Require Import ZArith List Bool Lia.
From stdpp Require Import base option list gmap strings.
From Stdlib Require Ascii.
Import Ascii.AsciiSyntax.
Delimit Scope char_scope with char.

Local Open Scope Z_scope.

(** ** Data model *)

Definition Oid : Type := Z.
Definition Datum : Type := Z.

(** The partitioning strategy of a relation ([prel->parttype]). *)
Inductive PartType : Type := PT_HASH | PT_RANGE.

Definition PartType_eqb (a b : PartType) : bool :=
  match a, b with
  | PT_HASH, PT_HASH | PT_RANGE, PT_RANGE => true
  | _, _ => false
  end.

(** One child partition and the half-open interval it covers. *)
Record RangeEntry : Type := mkRangeEntry {
  child_oid : Oid;
  min : Datum;
  max : Datum
}.

(** Modelled from the spec: [PartRelationInfo] and the accessors
    [PrelGetRangesArray] and [PrelChildrenCount] are declared in pathman.h,
    which is not part of the sources at hand.  The descriptor holds the
    strategy, the attribute type and, for RANGE, the ordered range entries; the
    child count is derived from the number of ranges (RANGE) or is the
    configured partition count (HASH). *)
Record PartRelationInfo : Type := mkPartRelationInfo {
  parttype : PartType;
  atttype : Oid;
  ranges : list RangeEntry;
  hash_partitions : Z
}.

Definition PrelGetRangesArray (prel : PartRelationInfo) : list RangeEntry :=
  ranges prel.

Definition PrelChildrenCount (prel : PartRelationInfo) : Z :=
  match parttype prel with
  | PT_RANGE => Z.of_nat (length (ranges prel))
  | PT_HASH => hash_partitions prel
  end.

(** The failures the routines raise through [elog(ERROR, ...)], one
    constructor per message of pl_funcs.c, named after the design document's
    taxonomy:
    - [NotPartitioned]: relation is not partitioned by pg_pathman;
    - [NotRangePartitioned]: relation is not partitioned by RANGE;
    - [NoSuchPartition]: relation has no partition with that oid;
    - [PartitionNotFound]: partition number idx does not exist;
    - [InvalidIndex]: negative indices other than -1 are not allowed.
    [EmptyPartitionSet] and [InvalidPartitionCount] belong to the taxonomy but
    no [elog] of pl_funcs.c raises them; [DdlError] is what the
    partition-creating collaborator raises. *)
Inductive pathman_error : Type :=
| NotPartitioned
| NotRangePartitioned
| NoSuchPartition
| PartitionNotFound
| InvalidIndex
| EmptyPartitionSet
| InvalidPartitionCount
| DdlError (code : Z).

(** The two process-wide serialization points of [pmstate]. *)
Inductive LWLock : Type := load_config_lock | edit_partitions_lock.

(** ** Fixed-width integers *)

Definition uint32 (z : Z) : Z := z mod 2 ^ 32.

(** Conversion of a 32-bit pattern to [int]. *)
Definition int32 (z : Z) : Z :=
  let u := z mod 2 ^ 32 in
  if u <? 2 ^ 31 then u else u - 2 ^ 32.

(** ** The command monad

    A program is a finite tree of backend commands.  [Elog] is
    [elog(ERROR, ...)]: it unwinds out of the routine, so nothing written
    after it in the C text runs.  [Fault] is an array read outside the range
    array (undefined behaviour in C). *)
Inductive Prog (A : Type) : Type :=
| Ret (a : A)
| Elog (e : pathman_error)
| Fault
| GetRelInfo (relid : Oid) (k : option PartRelationInfo -> Prog A)
| Acquire (l : LWLock) (k : Prog A)
| Release (l : LWLock) (k : Prog A)
| CreatePartitions (parent : Oid) (value : Datum) (value_type : Oid)
                   (k : Oid -> Prog A).

Arguments Ret {A} a.
Arguments Elog {A} e.
Arguments Fault {A}.
Arguments GetRelInfo {A} relid k.
Arguments Acquire {A} l k.
Arguments Release {A} l k.
Arguments CreatePartitions {A} parent value value_type k.

Fixpoint bind {A B : Type} (m : Prog A) (f : A -> Prog B) : Prog B :=
  match m with
  | Ret a => f a
  | Elog e => Elog e
  | Fault => Fault
  | GetRelInfo relid k => GetRelInfo relid (fun r => bind (k r) f)
  | Acquire l k => Acquire l (bind k f)
  | Release l k => Release l (bind k f)
  | CreatePartitions p v t k => CreatePartitions p v t (fun c => bind (k c) f)
  end.

Declare Scope prog_scope.
Delimit Scope prog_scope with prog.
Notation "x <- m ;; k" := (bind m (fun x => k))
  (at level 100, m at next level, right associativity) : prog_scope.
Notation "m ;;; k" := (bind m (fun _ => k))
  (at level 100, right associativity) : prog_scope.
Local Open Scope prog_scope.

(** The backend services as commands, under the names the C text uses.
    [get_pathman_relation_info] answers the descriptor registered at the
    moment of the call, or nothing; the routines keep that answer through a
    pointer to const, and no later command of a routine changes it. *)
Definition get_pathman_relation_info (relid : Oid)
  : Prog (option PartRelationInfo) := GetRelInfo relid Ret.
Definition LWLockAcquire (l : LWLock) : Prog unit := Acquire l (Ret tt).
Definition LWLockRelease (l : LWLock) : Prog unit := Release l (Ret tt).
Definition create_partitions (parent : Oid) (value : Datum) (value_type : Oid)
  : Prog Oid := CreatePartitions parent value value_type Ret.
Definition elog {A : Type} (e : pathman_error) : Prog A := Elog e.

(** [ranges[i]]: a read outside the array faults. *)
Definition array_get (rs : list RangeEntry) (i : Z) : Prog RangeEntry :=
  if (i <? 0) || (Z.of_nat (length rs) <=? i) then Fault
  else match rs !! Z.to_nat i with
       | Some re => Ret re
       | None => Fault
       end.

(** ** External collaborators *)

(** The type-system collaborator.  [fill_type_cmp_fmgr_info (&cmp, t1, t2)]
    looks up the three-way comparison of a value of type [t1] with a value of
    type [t2]; the [FmgrInfo] it fills is the comparison itself, and
    [FunctionCall2] applies it, giving a negative, zero or positive [int]. *)
Class TypeSystem : Type := {
  fill_type_cmp_fmgr_info : Oid -> Oid -> (Datum -> Datum -> Z)
}.

Definition FunctionCall2 (cmp_func : Datum -> Datum -> Z) (a b : Datum) : Z :=
  cmp_func a b.

(** What the partition-creating collaborator answers: the catalog with the new
    range entries registered and the oid of the child that owns the value, or
    a failure. *)
Inductive DdlResult : Type :=
| DdlOk (catalog' : gmap Z PartRelationInfo) (child : Oid)
| DdlFail (e : pathman_error).

(** The partition-creating collaborator behind [create_partitions]: it sees
    the catalog as it stands when it is called. *)
Class PartitionCreator : Type := {
  create_partitions_internal :
    gmap Z PartRelationInfo -> Oid -> Datum -> Oid -> DdlResult
}.

(** ** Range search *)

Inductive Side : Type := below_first | above_last.

(** The search result of the design document; [Found] carries the owning
    entry, whose [child_oid] is the partition identifier. *)
Inductive SearchResult : Type :=
| Found (owner : RangeEntry)
| Gap (lower_neighbor_index upper_neighbor_index : nat)
| OutOfRange (side : Side).

(** What a search that ends at insertion point [pos] of [n] entries reports:
    before the first entry, after the last one, or a gap between two
    neighbours. *)
Definition miss (n pos : nat) : SearchResult :=
  if (pos =? 0)%nat then OutOfRange below_first
  else if (n <=? pos)%nat then OutOfRange above_last
  else Gap (pos - 1) pos.

(** Binary search over [rs] between [lo] (inclusive) and [hi] (exclusive):
    [min] is inclusive and [max] exclusive.  Each round shrinks [hi - lo], so
    [fuel >= hi - lo] rounds always suffice ([bsearch_enough_fuel] below). *)
Fixpoint bsearch (cmp_func : Datum -> Datum -> Z) (rs : list RangeEntry)
    (value : Datum) (fuel lo hi : nat) : SearchResult :=
  match fuel with
  | O => miss (length rs) lo
  | S fuel' =>
      if (hi <=? lo)%nat then miss (length rs) lo
      else
        let mid := (lo + (hi - lo) / 2)%nat in
        match rs !! mid with
        | None => miss (length rs) lo
        | Some re =>
            if FunctionCall2 cmp_func value (min re) <? 0
            then bsearch cmp_func rs value fuel' lo mid
            else if FunctionCall2 cmp_func value (max re) <? 0
            then Found re
            else bsearch cmp_func rs value fuel' (S mid) hi
        end
  end.

(** Modelled from the spec: [find_owner], the range search whose C text
    (behind [search_range_partition_eq]) is not part of the sources at
    hand.  Binary search over the ordered ranges with the injected
    comparator; a value equal to an entry's [min] belongs to it, a value equal
    to its [max] does not. *)
Definition find_owner (cmp_func : Datum -> Datum -> Z) (rs : list RangeEntry)
    (value : Datum) : SearchResult :=
  bsearch cmp_func rs value (length rs) 0 (length rs).

(** The three search states pl_funcs.c tests.  The out-parameter
    [found_rentry] is written only when the state is FOUND, so that
    constructor carries it. *)
Inductive search_rangerel_result : Type :=
| SEARCH_RANGEREL_OUT_OF_RANGE
| SEARCH_RANGEREL_GAP
| SEARCH_RANGEREL_FOUND (found_rentry : RangeEntry).

(** The range search pl_funcs.c calls.  Its C text is not part of the sources
    at hand, so the routines take it as a collaborator: a function of the
    value, the comparison and the descriptor it is handed. *)
Class RangeSearch : Type := {
  search_range_partition_eq :
    Datum -> (Datum -> Datum -> Z) -> PartRelationInfo -> search_rangerel_result
}.

(** Modelled from the spec: [search_range_partition_eq] as the design
    document describes it, that is [find_owner] on the descriptor's ranges,
    reported through the C enumeration. *)
Definition find_owner_search : RangeSearch :=
  {| search_range_partition_eq := fun value cmp_func prel =>
       match find_owner cmp_func (PrelGetRangesArray prel) value with
       | Found re => SEARCH_RANGEREL_FOUND re
       | Gap _ _ => SEARCH_RANGEREL_GAP
       | OutOfRange _ => SEARCH_RANGEREL_OUT_OF_RANGE
       end |}.

(** ** Hash routing *)

(** Modelled from the spec: [hash_to_part_index] is declared in pathman.h,
    which is not part of the sources at hand.  The index is the hash value
    modulo the partition count (unsigned), and a zero partition count is the
    failure [InvalidPartitionCount]. *)
Definition hash_to_part_index (value partitions : Z) : Prog Z :=
  if partitions =? 0 then elog InvalidPartitionCount
  else Ret (value mod partitions).

(** ** The routines of pl_funcs.c *)

Definition is_null {A : Type} (p : option A) : bool :=
  match p with
  | None => true
  | Some _ => false
  end.

(** [PG_RETURN_NULL] and [PG_RETURN_OID] of a routine that answers an oid. *)
Definition PG_RETURN_NULL : Prog (option Oid) := Ret None.
Definition PG_RETURN_OID (o : Oid) : Prog (option Oid) := Ret (Some o).

Section Routines.

Context {types : TypeSystem} {search : RangeSearch}.

(** [find_or_create_range_partition] from the test of the fetched descriptor
    on (the C text after its first statement): returns partition oid for
    specified parent relid and value; in case the partition does not exist,
    tries to create one. *)
Definition find_or_create_body (parent_oid : Oid) (value : Datum)
    (value_type : Oid) (prel : option PartRelationInfo) : Prog (option Oid) :=
  match prel with
  | None => PG_RETURN_NULL
  | Some prel =>
      let cmp_func := fill_type_cmp_fmgr_info value_type (atttype prel) in
      match search_range_partition_eq value cmp_func prel with
      | SEARCH_RANGEREL_FOUND found_rentry =>
          PG_RETURN_OID (child_oid found_rentry)
      | SEARCH_RANGEREL_GAP =>
          PG_RETURN_NULL
      | _ =>
          LWLockAcquire load_config_lock ;;;
          LWLockAcquire edit_partitions_lock ;;;
          match search_range_partition_eq value cmp_func prel with
          | SEARCH_RANGEREL_FOUND found_rentry =>
              LWLockRelease load_config_lock ;;;
              LWLockRelease edit_partitions_lock ;;;
              PG_RETURN_OID (child_oid found_rentry)
          | _ =>
              child <- create_partitions parent_oid value value_type ;;
              LWLockRelease load_config_lock ;;;
              LWLockRelease edit_partitions_lock ;;;
              PG_RETURN_OID child
          end
      end
  end.

(** The whole routine: the descriptor is fetched once, at the start. *)
Definition find_or_create_range_partition (parent_oid : Oid) (value : Datum)
    (value_type : Oid) : Prog (option Oid) :=
  prel <- get_pathman_relation_info parent_oid ;;
  find_or_create_body parent_oid value value_type prel.

(** The loop of [get_range_by_part_oid]: [n] rounds are left, [i] is the
    index. *)
Fixpoint range_by_part_oid_loop (rs : list RangeEntry) (child : Oid)
    (i : Z) (n : nat) : Prog (Datum * Datum) :=
  match n with
  | O => elog NoSuchPartition
  | S n' =>
      re <- array_get rs i ;;
      if child_oid re =? child then Ret (min re, max re)
      else range_by_part_oid_loop rs child (i + 1) n'
  end.

(** Returns range entry (min, max) of the partition with the given oid. *)
Definition get_range_by_part_oid (parent_oid child : Oid)
  : Prog (Datum * Datum) :=
  prel <- get_pathman_relation_info parent_oid ;;
  match prel with
  | None => elog NotPartitioned
  | Some prel =>
      range_by_part_oid_loop (PrelGetRangesArray prel) child 0
        (Z.to_nat (PrelChildrenCount prel))
  end.

(** Returns N-th range entry (min, max).  [idx] is an [int]; [abs] of the
    least [int] is taken as the magnitude the cast to [uint32] gives. *)
Definition get_range_by_idx (parent_oid : Oid) (idx : Z)
  : Prog (Datum * Datum) :=
  prel <- get_pathman_relation_info parent_oid ;;
  match prel with
  | None => elog NotPartitioned
  | Some prel =>
      if uint32 (Z.abs idx) >=? PrelChildrenCount prel
      then elog PartitionNotFound
      else
        let ranges := PrelGetRangesArray prel in
        idx <- (if idx =? -1 then Ret (int32 (PrelChildrenCount prel - 1))
                else if idx <? -1 then elog InvalidIndex
                else Ret idx) ;;
        re <- array_get ranges idx ;;
        Ret (min re, max re)
  end.

(** The strategy test shared by [get_min_range_value], [get_max_range_value]
    and [check_overlap]: the RANGE failure sits under a second test of the
    descriptor pointer. *)
Definition check_range_strategy (prel_ptr : option PartRelationInfo)
    (prel : PartRelationInfo) : Prog unit :=
  if negb (PartType_eqb (parttype prel) PT_RANGE)
  then (if is_null prel_ptr then elog NotRangePartitioned else Ret tt)
  else Ret tt.

(** Returns min value of the first range for relation. *)
Definition get_min_range_value (parent_oid : Oid) : Prog Datum :=
  prel_ptr <- get_pathman_relation_info parent_oid ;;
  match prel_ptr with
  | None => elog NotPartitioned
  | Some prel =>
      check_range_strategy prel_ptr prel ;;;
      re <- array_get (PrelGetRangesArray prel) 0 ;;
      Ret (min re)
  end.

(** Returns max value of the last range for relation. *)
Definition get_max_range_value (parent_oid : Oid) : Prog Datum :=
  prel_ptr <- get_pathman_relation_info parent_oid ;;
  match prel_ptr with
  | None => elog NotPartitioned
  | Some prel =>
      check_range_strategy prel_ptr prel ;;;
      re <- array_get (PrelGetRangesArray prel)
              (uint32 (PrelChildrenCount prel - 1)) ;;
      Ret (max re)
  end.

(** The loop of [check_overlap]. *)
Fixpoint check_overlap_loop (cmp_func_1 cmp_func_2 : Datum -> Datum -> Z)
    (p1 p2 : Datum) (rs : list RangeEntry) (i : Z) (n : nat) : Prog bool :=
  match n with
  | O => Ret false
  | S n' =>
      re <- array_get rs i ;;
      let c1 := FunctionCall2 cmp_func_1 p1 (max re) in
      let c2 := FunctionCall2 cmp_func_2 p2 (min re) in
      if (c1 <? 0) && (c2 >? 0) then Ret true
      else check_overlap_loop cmp_func_1 cmp_func_2 p1 p2 rs (i + 1) n'
  end.

(** Checks if range overlaps with existing partitions. *)
Definition check_overlap (parent_oid : Oid) (p1 p2 : Datum)
    (p1_type p2_type : Oid) : Prog bool :=
  prel_ptr <- get_pathman_relation_info parent_oid ;;
  match prel_ptr with
  | None => elog NotPartitioned
  | Some prel =>
      check_range_strategy prel_ptr prel ;;;
      let cmp_func_1 := fill_type_cmp_fmgr_info p1_type (atttype prel) in
      let cmp_func_2 := fill_type_cmp_fmgr_info p2_type (atttype prel) in
      check_overlap_loop cmp_func_1 cmp_func_2 p1 p2
        (PrelGetRangesArray prel) 0 (Z.to_nat (PrelChildrenCount prel))
  end.

End Routines.

(** Wrapper for [hash_to_part_index]: both arguments are read as [uint32]. *)
Definition get_hash_part_idx (arg0 arg1 : Datum) : Prog Z :=
  let value := uint32 arg0 in
  let part_count := uint32 arg1 in
  hash_to_part_index value part_count.

(** ** Execution *)

(** What an observer of the shared state sees happen, in order. *)
Inductive Event : Type :=
| EvAcquire (backend : nat) (l : LWLock)
| EvRelease (backend : nat) (l : LWLock)
| EvCreate (backend : nat) (parent : Oid) (value : Datum) (value_type : Oid).

(** The state the backends share: the registered partitioning metadata, the
    holder of each of the two locks, and the history of events. *)
Record World : Type := mkWorld {
  catalog : gmap Z PartRelationInfo;
  config_holder : option nat;
  edit_holder : option nat;
  trace : list Event
}.

Definition holder (l : LWLock) (w : World) : option nat :=
  match l with
  | load_config_lock => config_holder w
  | edit_partitions_lock => edit_holder w
  end.

Definition set_holder (l : LWLock) (h : option nat) (w : World) : World :=
  match l with
  | load_config_lock =>
      mkWorld (catalog w) h (edit_holder w) (trace w)
  | edit_partitions_lock =>
      mkWorld (catalog w) (config_holder w) h (trace w)
  end.

Definition set_catalog (c : gmap Z PartRelationInfo) (w : World) : World :=
  mkWorld c (config_holder w) (edit_holder w) (trace w).

Definition emit (ev : Event) (w : World) : World :=
  mkWorld (catalog w) (config_holder w) (edit_holder w) (trace w ++ [ev]).

Definition locks_free (w : World) : Prop :=
  config_holder w = None /\ edit_holder w = None.

(** How a call ends: it returns, it leaves through [elog(ERROR, ...)], it
    reads outside an array, it waits for a lock that is never released, or it
    releases a lock it does not hold. *)
Inductive Outcome (A : Type) : Type :=
| Returns (a : A)
| Raises (e : pathman_error)
| Faults
| Blocks (l : LWLock)
| NotHeld (l : LWLock).

Arguments Returns {A} a.
Arguments Raises {A} e.
Arguments Faults {A}.
Arguments Blocks {A} l.
Arguments NotHeld {A} l.

Definition holds (backend : nat) (l : LWLock) (w : World) : bool :=
  match holder l w with
  | Some b => (b =? backend)%nat
  | None => false
  end.

(** What one command of a backend leads to. *)
Inductive Next (A : Type) : Type :=
| Continue (w : World) (p : Prog A)
| Halt (w : World) (o : Outcome A).

Arguments Continue {A} w p.
Arguments Halt {A} w o.

(** A backend is in the middle of a call or has left it. *)
Inductive Thread (A : Type) : Type :=
| Active (p : Prog A)
| Finished (o : Outcome A).

Arguments Active {A} p.
Arguments Finished {A} o.

Section Execution.

Context {ddl : PartitionCreator}.

(** One call of backend [backend], run alone from start to end.  An exclusive
    LWLock is taken when it is free; [elog(ERROR, ...)] leaves the world as it
    stands at that point. *)
Fixpoint run {A : Type} (backend : nat) (w : World) (p : Prog A)
  : World * Outcome A :=
  match p with
  | Ret a => (w, Returns a)
  | Elog e => (w, Raises e)
  | Fault => (w, Faults)
  | GetRelInfo relid k => run backend w (k (catalog w !! relid))
  | Acquire l k =>
      match holder l w with
      | None =>
          run backend
            (emit (EvAcquire backend l) (set_holder l (Some backend) w)) k
      | Some _ => (w, Blocks l)
      end
  | Release l k =>
      if holds backend l w
      then run backend (emit (EvRelease backend l) (set_holder l None w)) k
      else (w, NotHeld l)
  | CreatePartitions parent value value_type k =>
      let w1 := emit (EvCreate backend parent value value_type) w in
      match create_partitions_internal (catalog w) parent value value_type with
      | DdlOk catalog' child => run backend (set_catalog catalog' w1) (k child)
      | DdlFail e => (w1, Raises e)
      end
  end.

(** One command of a backend, for interleaved execution. *)
Definition step {A : Type} (backend : nat) (w : World) (p : Prog A) : Next A :=
  match p with
  | Ret a => Halt w (Returns a)
  | Elog e => Halt w (Raises e)
  | Fault => Halt w Faults
  | GetRelInfo relid k => Continue w (k (catalog w !! relid))
  | Acquire l k =>
      match holder l w with
      | None =>
          Continue
            (emit (EvAcquire backend l) (set_holder l (Some backend) w)) k
      | Some _ => Halt w (Blocks l)
      end
  | Release l k =>
      if holds backend l w
      then Continue (emit (EvRelease backend l) (set_holder l None w)) k
      else Halt w (NotHeld l)
  | CreatePartitions parent value value_type k =>
      let w1 := emit (EvCreate backend parent value value_type) w in
      match create_partitions_internal (catalog w) parent value value_type with
      | DdlOk catalog' child => Continue (set_catalog catalog' w1) (k child)
      | DdlFail e => Halt w1 (Raises e)
      end
  end.

(** Interleaved execution: each entry of [schedule] lets that backend perform
    one command.  A backend that waits for a lock stays where it is. *)
Fixpoint interleave {A : Type} (schedule : list nat) (w : World)
    (pool : list (Thread A)) : World * list (Thread A) :=
  match schedule with
  | [] => (w, pool)
  | backend :: rest =>
      match pool !! backend with
      | Some (Active p) =>
          match step backend w p with
          | Continue w' p' =>
              interleave rest w' (<[backend := Active p']> pool)
          | Halt _ (Blocks _) => interleave rest w pool
          | Halt w' o => interleave rest w' (<[backend := Finished o]> pool)
          end
      | _ => interleave rest w pool
      end
  end.

End Execution.

(** The creation calls a history records. *)
Definition is_create (ev : Event) : bool :=
  match ev with
  | EvCreate _ _ _ _ => true
  | _ => false
  end.

Definition create_calls (t : list Event) : nat :=
  length (List.filter is_create t).

(** ** A concrete relation

    The relation of the design document's scenarios: an [int4] key and the
    ranges [0,10), [10,20), [30,40). *)
Module Scenario.

(** Three-way comparison of two [int4] values. *)
Definition btint4cmp (a b : Datum) : Z :=
  match a ?= b with
  | Lt => -1
  | Eq => 0
  | Gt => 1
  end.

Definition INT4OID : Oid := 23.

Definition int4_types : TypeSystem :=
  {| fill_type_cmp_fmgr_info := fun _ _ => btint4cmp |}.

Definition parent : Oid := 16384.

Definition entries : list RangeEntry :=
  [ mkRangeEntry 16385 0 10;
    mkRangeEntry 16386 10 20;
    mkRangeEntry 16387 30 40 ].

Definition descriptor : PartRelationInfo :=
  mkPartRelationInfo PT_RANGE INT4OID entries 0.

(** Two more RANGE relations: one with the single partition [0,10) and one
    with no partition at all. *)
Definition lonely : Oid := 16400.
Definition bare : Oid := 16500.

Definition lonely_descriptor : PartRelationInfo :=
  mkPartRelationInfo PT_RANGE INT4OID [ mkRangeEntry 16401 0 10 ] 0.

Definition bare_descriptor : PartRelationInfo :=
  mkPartRelationInfo PT_RANGE INT4OID [] 0.

Definition world0 : World :=
  mkWorld (<[bare := bare_descriptor]>
             (<[lonely := lonely_descriptor]> {[ parent := descriptor ]}))
          None None [].

(** A creation collaborator that registers one new entry [value, value + 1)
    at the end of the parent's ranges, under the next free oid, and fails for
    a relation that has no descriptor. *)
Definition append_partition (cat : gmap Z PartRelationInfo) (parent_oid : Oid)
    (value : Datum) (value_type : Oid) : DdlResult :=
  match cat !! parent_oid with
  | None => DdlFail (DdlError 1)
  | Some prel =>
      let child := parent_oid + 1 + Z.of_nat (length (ranges prel)) in
      let prel' :=
        mkPartRelationInfo (parttype prel) (atttype prel)
          (ranges prel ++ [mkRangeEntry child value (value + 1)])
          (hash_partitions prel) in
      DdlOk (<[parent_oid := prel']> cat) child
  end.

Definition appending : PartitionCreator :=
  {| create_partitions_internal := append_partition |}.

(** A creation collaborator whose DDL always fails. *)
Definition failing : PartitionCreator :=
  {| create_partitions_internal := fun _ _ _ _ => DdlFail (DdlError 1) |}.

End Scenario.

(** ** A second concrete setting

    A HASH relation with four partitions, and the scenario's catalog at a
    moment when another backend holds both locks. *)
Module Busy.

Definition hashed : Oid := 16600.

Definition hashed_descriptor : PartRelationInfo :=
  mkPartRelationInfo PT_HASH Scenario.INT4OID [] 4.

Definition hash_world : World :=
  mkWorld {[ hashed := hashed_descriptor ]} None None [].

(** Backend 7 holds both locks. *)
Definition locked_world : World :=
  mkWorld (catalog Scenario.world0) (Some 7%nat) (Some 7%nat) [].


End Busy.

(** ** The string builders of pl_funcs.c

    The builders touch no shared state; they answer a text or leave through
    [elog(ERROR, ...)]. *)

(** The failures of the builders, one constructor per message:
    - [InvalidRelation]: invalid relation;
    - [InvalidAttributeNumber]: cannot build check constraint name, invalid
      attribute number;
    - [NoSuchColumn]: relation has no column of that name;
    - [BoundTypesDiffer]: cannot build range condition, boundaries should be
      of the same type. *)
Inductive builder_error : Type :=
| InvalidRelation
| InvalidAttributeNumber
| NoSuchColumn
| BoundTypesDiffer.

Inductive Built : Type :=
| Text (result : string)
| Refused (e : builder_error).

Definition InvalidOid : Oid := 0.
Definition InvalidAttrNumber : Z := 0.

(** The catalog and type services the builders call; none of them is part
    of pl_funcs.c.  [get_attnum] answers [InvalidAttrNumber] for a column
    the relation does not have and a negative number for a system column. *)
Class BuilderServices : Type := {
  get_rel_type_id : Oid -> Oid;
  get_attnum : Oid -> string -> Z;
  build_check_constraint_name_internal : Oid -> Z -> string;
  is_date_type_internal : Oid -> bool;
  is_string_type_internal : Oid -> bool;
  datum_to_cstring : Datum -> Oid -> string
}.

Definition text_to_cstring (t : string) : string := t.
Definition cstring_to_text (s : string) : string := s.

Definition is_digit_1_9 (c : Ascii.ascii) : bool :=
  (49 <=? Ascii.nat_of_ascii c)%nat && (Ascii.nat_of_ascii c <=? 57)%nat.

(** [psprintf] on the formats the builders use: plain text and positional
    string directives, a percent sign, one digit from 1 to 9, a dollar sign
    and the letter s, each replaced by the argument of that position. *)
Fixpoint psprintf (fmt : string) (args : list string) : string :=
  match fmt with
  | EmptyString => EmptyString
  | String c rest =>
      match c, rest with
      | "%"%char, String d (String "$"%char (String "s"%char rest')) =>
          if is_digit_1_9 d
          then nth (Ascii.nat_of_ascii d - 49) args EmptyString
               +:+ psprintf rest' args
          else String c (psprintf rest args)
      | _, _ => String c (psprintf rest args)
      end
  end.

Section Builders.

Context {services : BuilderServices}.

(** Build range condition for a CHECK CONSTRAINT. *)
Definition build_range_condition (attname : string)
    (min_bound max_bound : Datum) (min_bound_type max_bound_type : Oid)
  : Built :=
  if negb (min_bound_type =? max_bound_type) then Refused BoundTypesDiffer
  else
    let subst_str :=
      if is_date_type_internal min_bound_type
         || is_string_type_internal min_bound_type
      then "%1$s >= '%2$s' AND %1$s < '%3$s'"
      else "%1$s >= %2$s AND %1$s < %3$s" in
    let result :=
      psprintf subst_str
        [text_to_cstring attname;
         datum_to_cstring min_bound min_bound_type;
         datum_to_cstring max_bound max_bound_type] in
    Text (cstring_to_text result).

(** [attnum] is the [int16] the caller passed. *)
Definition build_check_constraint_name_attnum (relid : Oid) (attnum : Z)
  : Built :=
  if get_rel_type_id relid =? InvalidOid then Refused InvalidRelation
  else if (attnum =? InvalidAttrNumber) || (attnum <? 0)
  then Refused InvalidAttributeNumber
  else
    let result := build_check_constraint_name_internal relid attnum in
    Text (cstring_to_text result).

Definition build_check_constraint_name_attname (relid : Oid) (attname : string)
  : Built :=
  let attnum := get_attnum relid (text_to_cstring attname) in
  if get_rel_type_id relid =? InvalidOid then Refused InvalidRelation
  else if attnum =? InvalidAttrNumber then Refused NoSuchColumn
  else
    let result := build_check_constraint_name_internal relid attnum in
    Text (cstring_to_text result).

End Builders.

(** A catalog for the builders: relation 16384 with the user column [id]
    (number 1) and the system column [ctid] (number -1); [int4] is neither a
    date nor a string type, type 1082 is a date type. *)
Module BuilderScenario.

Definition services : BuilderServices :=
  {| get_rel_type_id := fun relid =>
       if relid =? 16384 then 16390 else InvalidOid;
     get_attnum := fun relid name =>
       if negb (relid =? 16384) then InvalidAttrNumber
       else if String.eqb name "id" then 1
       else if String.eqb name "ctid" then -1
       else InvalidAttrNumber;
     build_check_constraint_name_internal := fun relid attnum =>
       if attnum =? 1 then "pathman_t_1_check" else "pathman_t_m1_check";
     is_date_type_internal := fun t => t =? 1082;
     is_string_type_internal := fun t => t =? 25;
     datum_to_cstring := fun d t =>
       if d =? 0 then "0" else if d =? 10 then "10" else "?" |}.

End BuilderScenario.

(** ** Vocabulary of the properties *)

(** The test [check_overlap] applies to one entry. *)
Definition overlaps_entry (cmp_func_1 cmp_func_2 : Datum -> Datum -> Z)
    (p1 p2 : Datum) (re : RangeEntry) : bool :=
  (FunctionCall2 cmp_func_1 p1 (max re) <? 0)
  && (FunctionCall2 cmp_func_2 p2 (min re) >? 0).

(** The descriptor invariant of the data model under the ordering [cmp]:
    every entry has [min < max] and every entry's [max] is at most the next
    entry's [min]. *)
Fixpoint ranges_sorted (cmp : Datum -> Datum -> Z) (rs : list RangeEntry)
  : bool :=
  match rs with
  | [] => true
  | re :: rest =>
      (cmp (min re) (max re) <? 0)
      && match rest with
         | [] => true
         | next :: _ => cmp (max re) (min next) <=? 0
         end
      && ranges_sorted cmp rest
  end.

(** The comparison of [value] with a bound agrees with the ordering [cmp_att]
    of the bounds: a value below a bound is below every larger bound. *)
Definition cmp_consistent (cmp_val cmp_att : Datum -> Datum -> Z)
    (value : Datum) : Prop :=
  forall a b, cmp_att a b <= 0 -> cmp_val value a < 0 -> cmp_val value b < 0.

(** The same agreement for the non-strict order: a value at most a bound is
    at most every larger bound. *)
Definition cmp_consistent_le (cmp_val cmp_att : Datum -> Datum -> Z)
    (value : Datum) : Prop :=
  forall a b, cmp_att a b <= 0 -> cmp_val value a <= 0 -> cmp_val value b <= 0.

(** The locks a history releases, in order. *)
Definition releases (t : list Event) : list LWLock :=
  flat_map (fun ev => match ev with
                      | EvRelease _ l => [l]
                      | _ => []
                      end) t.

(** Whether a history releases [load_config_lock] at a moment when
    [edit_partitions_lock] is held ([edit_held] says whether it is at the
    start). *)
Fixpoint config_released_under_edit (edit_held : bool) (t : list Event)
  : bool :=
  match t with
  | [] => false
  | EvAcquire _ edit_partitions_lock :: t' =>
      config_released_under_edit true t'
  | EvRelease _ edit_partitions_lock :: t' =>
      config_released_under_edit false t'
  | EvRelease _ load_config_lock :: t' =>
      edit_held || config_released_under_edit edit_held t'
  | _ :: t' => config_released_under_edit edit_held t'
  end.

(** The schedule of two racing backends: each fetches the descriptor, then
    backend 0 runs to its end, then backend 1 does. *)
Definition racing_schedule : list nat :=
  [0; 1; 0; 0; 0; 0; 0; 0; 1; 1; 1; 1; 1; 1]%nat.

(** * Properties *)

(** ** Running programs *)

Section RunFacts.

Context {ddl : PartitionCreator}.

(** [run] of a sequence: the second part starts where the first one returned,
    and any other ending of the first part ends the whole. *)
Lemma run_bind {A B : Type} (m : Prog A) (f : A -> Prog B) backend w :
  run backend w (bind m f) =
  match run backend w m with
  | (w', Returns a) => run backend w' (f a)
  | (w', Raises e) => (w', Raises e)
  | (w', Faults) => (w', Faults)
  | (w', Blocks l) => (w', Blocks l)
  | (w', NotHeld l) => (w', NotHeld l)
  end.
Proof.
  revert w.
  induction m as [a | e | | relid k IH | l k IH | l k IH | p v t k IH];
    intros w; simpl; try reflexivity.
  - apply IH.
  - destruct (holder l w); [reflexivity | apply IH].
  - destruct (holds backend l w); [apply IH | reflexivity].
  - destruct (create_partitions_internal (catalog w) p v t);
      [apply IH | reflexivity].
Qed.

(** One command, then the rest, is the whole run. *)
Lemma run_step {A : Type} (p : Prog A) backend w :
  run backend w p =
  match step backend w p with
  | Continue w' p' => run backend w' p'
  | Halt w' o => (w', o)
  end.
Proof.
  destruct p as [a | e | | relid k | l k | l k | pa v t k]; simpl;
    try reflexivity.
  - destruct (holder l w); reflexivity.
  - destruct (holds backend l w); reflexivity.
  - destruct (create_partitions_internal (catalog w) pa v t); reflexivity.
Qed.

(** A read inside the array returns the entry and leaves the world alone. *)
Lemma run_array_get rs (i : nat) re backend w :
  rs !! i = Some re ->
  run backend w (array_get rs (Z.of_nat i)) = (w, Returns re).
Proof.
  intros Hi. unfold array_get.
  pose proof (lookup_lt_Some rs i re Hi) as Hlt.
  destruct (Z.ltb_spec (Z.of_nat i) 0) as [Hneg | _]; [lia |].
  destruct (Z.leb_spec (Z.of_nat (length rs)) (Z.of_nat i)) as [Hge | _];
    [lia |].
  simpl. rewrite Nat2Z.id, Hi. reflexivity.
Qed.

(** A read outside the array faults. *)
Lemma run_array_get_outside rs (i : Z) backend w :
  Z.of_nat (length rs) <= i ->
  run backend w (array_get rs i) = (w, Faults).
Proof.
  intros Hi. unfold array_get.
  destruct (Z.leb_spec (Z.of_nat (length rs)) i) as [_ | Hlt]; [| lia].
  rewrite orb_true_r. reflexivity.
Qed.

End RunFacts.

(** ** A relation without descriptor *)

(** C10.  When the descriptor lookup returns nothing,
    [find_or_create_range_partition] returns SQL NULL: it raises no failure,
    takes no lock and calls no collaborator (the world is unchanged), while
    the bounds, min, max and overlap routines all raise the not-partitioned
    failure for the same relation. *)
Theorem no_descriptor_null_not_failure
    (types : TypeSystem) (search : RangeSearch) (ddl : PartitionCreator)
    (backend : nat) (w : World)
    (parent_oid : Oid) (value : Datum) (value_type child : Oid) (idx : Z)
    (p1 p2 : Datum) (p1_type p2_type : Oid) :
  catalog w !! parent_oid = None ->
  run backend w (find_or_create_range_partition parent_oid value value_type)
    = (w, Returns None)
  /\ run backend w (get_range_by_part_oid parent_oid child)
    = (w, Raises NotPartitioned)
  /\ run backend w (get_range_by_idx parent_oid idx)
    = (w, Raises NotPartitioned)
  /\ run backend w (get_min_range_value parent_oid)
    = (w, Raises NotPartitioned)
  /\ run backend w (get_max_range_value parent_oid)
    = (w, Raises NotPartitioned)
  /\ run backend w (check_overlap parent_oid p1 p2 p1_type p2_type)
    = (w, Raises NotPartitioned).
Proof.
  intros Hnone.
  unfold find_or_create_range_partition, get_range_by_part_oid,
    get_range_by_idx, get_min_range_value, get_max_range_value, check_overlap.
  simpl. rewrite Hnone. simpl. repeat split; reflexivity.
Qed.

(** The relation 99 is unknown to the scenario's catalog. *)
Lemma no_descriptor_null_not_failure_witness :
  run (ddl := Scenario.appending) 0 Scenario.world0
      (find_or_create_range_partition (types := Scenario.int4_types)
         (search := find_owner_search) 99 45 23)
    = (Scenario.world0, Returns None)
  /\ run (ddl := Scenario.appending) 0 Scenario.world0
      (get_range_by_part_oid 99 16385)
    = (Scenario.world0, Raises NotPartitioned)
  /\ run (ddl := Scenario.appending) 0 Scenario.world0 (get_range_by_idx 99 0)
    = (Scenario.world0, Raises NotPartitioned)
  /\ run (ddl := Scenario.appending) 0 Scenario.world0 (get_min_range_value 99)
    = (Scenario.world0, Raises NotPartitioned)
  /\ run (ddl := Scenario.appending) 0 Scenario.world0 (get_max_range_value 99)
    = (Scenario.world0, Raises NotPartitioned)
  /\ run (ddl := Scenario.appending) 0 Scenario.world0
      (check_overlap (types := Scenario.int4_types) 99 5 15 23 23)
    = (Scenario.world0, Raises NotPartitioned).
Proof.
  apply (no_descriptor_null_not_failure Scenario.int4_types find_owner_search
           Scenario.appending
           0%nat Scenario.world0 99 45 23 16385 0 5 15 23 23).
  reflexivity.
Defined.

(** ** Hash routing *)

Lemma uint32_id (z : Z) : 0 <= z < 2 ^ 32 -> uint32 z = z.
Proof. intros Hz. unfold uint32. apply Z.mod_small. exact Hz. Qed.

(** C8.  For every unsigned 32-bit hash value [h] and partition count [n]:
    when [n > 0] the router returns [h mod n], which lies in [0, n); when
    [n = 0] it fails with [InvalidPartitionCount]. *)
Theorem hash_router_modulo
    (ddl : PartitionCreator) (backend : nat) (w : World) (h n : Z) :
  0 <= h < 2 ^ 32 ->
  0 <= n < 2 ^ 32 ->
  (0 < n ->
     run backend w (get_hash_part_idx h n) = (w, Returns (h mod n))
     /\ 0 <= h mod n < n)
  /\ (n = 0 ->
     run backend w (get_hash_part_idx h n) = (w, Raises InvalidPartitionCount)).
Proof.
  intros Hh Hn. unfold get_hash_part_idx, hash_to_part_index.
  rewrite (uint32_id h Hh), (uint32_id n Hn).
  split.
  - intros Hpos. split.
    + destruct (Z.eqb_spec n 0) as [Hz | _]; [lia | reflexivity].
    + apply Z.mod_pos_bound. exact Hpos.
  - intros ->. reflexivity.
Qed.

Lemma hash_router_modulo_witness :
  (0 < 4 ->
     run (ddl := Scenario.failing) 0 Scenario.world0
       (get_hash_part_idx 4294967295 4)
       = (Scenario.world0, Returns (4294967295 mod 4))
     /\ 0 <= 4294967295 mod 4 < 4)
  /\ (4 = 0 ->
     run (ddl := Scenario.failing) 0 Scenario.world0
       (get_hash_part_idx 4294967295 4)
       = (Scenario.world0, Raises InvalidPartitionCount)).
Proof.
  apply (hash_router_modulo Scenario.failing 0%nat Scenario.world0
           4294967295 4);
    lia.
Defined.

(** ** Overlap check *)

Section OverlapFacts.

Context {ddl : PartitionCreator}.
Variables (cmp_func_1 cmp_func_2 : Datum -> Datum -> Z) (p1 p2 : Datum).

(** The scan from index [i] over [n] entries answers whether one of them
    passes the test. *)
Lemma run_check_overlap_loop backend w rs (n i : nat) :
  (i + n <= length rs)%nat ->
  run backend w
      (check_overlap_loop cmp_func_1 cmp_func_2 p1 p2 rs (Z.of_nat i) n)
  = (w, Returns (existsb (overlaps_entry cmp_func_1 cmp_func_2 p1 p2)
                         (take n (drop i rs)))).
Proof.
  revert i. induction n as [| n IH]; intros i Hlen; simpl.
  - reflexivity.
  - destruct (lookup_lt_is_Some_2 rs i) as [re Hre]; [lia |].
    rewrite run_bind, (run_array_get rs i re) by exact Hre.
    rewrite (drop_S rs re i Hre). simpl.
    fold (overlaps_entry cmp_func_1 cmp_func_2 p1 p2 re).
    destruct (overlaps_entry cmp_func_1 cmp_func_2 p1 p2 re); simpl.
    + reflexivity.
    + replace (Z.of_nat i + 1) with (Z.of_nat (S i)) by lia.
      apply IH. lia.
Qed.

End OverlapFacts.

(** C6.  For a RANGE relation, [check_overlap] answers true iff some range
    entry satisfies: probe minimum below the entry's max and probe maximum
    above the entry's min.  Against [0,10), [10,20), [30,40) the probe
    [20,30), which exactly fills the gap, gives false and [5,15) gives
    true. *)
Theorem check_overlap_iff_some_entry
    (types : TypeSystem) (ddl : PartitionCreator) (backend : nat) (w : World)
    (parent_oid : Oid) (prel : PartRelationInfo) (p1 p2 : Datum)
    (p1_type p2_type : Oid) :
  catalog w !! parent_oid = Some prel ->
  parttype prel = PT_RANGE ->
  (exists answer : bool,
     run backend w (check_overlap parent_oid p1 p2 p1_type p2_type)
       = (w, Returns answer)
     /\ (answer = true <->
         exists re, In re (ranges prel)
           /\ fill_type_cmp_fmgr_info p1_type (atttype prel) p1 (max re) < 0
           /\ fill_type_cmp_fmgr_info p2_type (atttype prel) p2 (min re) > 0))
  /\ run (ddl := Scenario.failing) 0 Scenario.world0
       (check_overlap (types := Scenario.int4_types) Scenario.parent 20 30
          Scenario.INT4OID Scenario.INT4OID)
     = (Scenario.world0, Returns false)
  /\ run (ddl := Scenario.failing) 0 Scenario.world0
       (check_overlap (types := Scenario.int4_types) Scenario.parent 5 15
          Scenario.INT4OID Scenario.INT4OID)
     = (Scenario.world0, Returns true).
Proof.
  intros Hprel Hrange. split; [| split; reflexivity].
  set (c1 := fill_type_cmp_fmgr_info p1_type (atttype prel)).
  set (c2 := fill_type_cmp_fmgr_info p2_type (atttype prel)).
  exists (existsb (overlaps_entry c1 c2 p1 p2) (ranges prel)). split.
  - unfold check_overlap. simpl. rewrite Hprel. simpl.
    unfold check_range_strategy, PrelChildrenCount, PrelGetRangesArray.
    rewrite Hrange. simpl. rewrite Nat2Z.id.
    change 0 with (Z.of_nat 0).
    rewrite (run_check_overlap_loop c1 c2 p1 p2 backend w (ranges prel)
               (length (ranges prel)) 0) by lia.
    rewrite drop_0, firstn_all. reflexivity.
  - rewrite existsb_exists. split.
    + intros [re [Hin Htest]]. exists re. split; [exact Hin |].
      unfold overlaps_entry, FunctionCall2 in Htest.
      apply andb_true_iff in Htest. destruct Htest as [H1 H2].
      apply Z.ltb_lt in H1. apply Z.gtb_gt in H2. fold c1 c2. lia.
    + intros [re [Hin [H1 H2]]]. exists re. split; [exact Hin |].
      unfold overlaps_entry, FunctionCall2. apply andb_true_iff. split.
      * apply Z.ltb_lt. exact H1.
      * apply Z.gtb_gt. exact H2.
Qed.

Lemma check_overlap_iff_some_entry_witness :
  (exists answer : bool,
     run (ddl := Scenario.failing) 0 Scenario.world0
       (check_overlap (types := Scenario.int4_types) Scenario.parent 5 15
          Scenario.INT4OID Scenario.INT4OID)
       = (Scenario.world0, Returns answer)
     /\ (answer = true <->
         exists re, In re (ranges Scenario.descriptor)
           /\ Scenario.btint4cmp 5 (max re) < 0
           /\ Scenario.btint4cmp 15 (min re) > 0))
  /\ run (ddl := Scenario.failing) 0 Scenario.world0
       (check_overlap (types := Scenario.int4_types) Scenario.parent 20 30
          Scenario.INT4OID Scenario.INT4OID)
     = (Scenario.world0, Returns false)
  /\ run (ddl := Scenario.failing) 0 Scenario.world0
       (check_overlap (types := Scenario.int4_types) Scenario.parent 5 15
          Scenario.INT4OID Scenario.INT4OID)
     = (Scenario.world0, Returns true).
Proof.
  apply (check_overlap_iff_some_entry Scenario.int4_types Scenario.failing
           0%nat Scenario.world0 Scenario.parent Scenario.descriptor 5 15
           Scenario.INT4OID Scenario.INT4OID); reflexivity.
Defined.

(** ** Global bounds *)

(** C5 as stated fails: for a RANGE relation without ranges neither routine
    raises [EmptyPartitionSet]; both read outside the (empty) range array. *)
Lemma global_bounds_no_empty_failure :
  run (ddl := Scenario.failing) 0 Scenario.world0
      (get_min_range_value Scenario.bare) = (Scenario.world0, Faults)
  /\ run (ddl := Scenario.failing) 0 Scenario.world0
      (get_max_range_value Scenario.bare) = (Scenario.world0, Faults)
  /\ snd (run (ddl := Scenario.failing) 0 Scenario.world0
            (get_min_range_value Scenario.bare)) <> Raises EmptyPartitionSet
  /\ snd (run (ddl := Scenario.failing) 0 Scenario.world0
            (get_max_range_value Scenario.bare)) <> Raises EmptyPartitionSet.
Proof.
  repeat split; try reflexivity; vm_compute; discriminate.
Qed.

(** C5, amended.  For a RANGE relation with at least one range,
    [get_min_range_value] returns the [min] of the first range and
    [get_max_range_value] the [max] of the last one; with no ranges both read
    outside the range array and no typed failure is raised. *)
Theorem global_bounds_of_range_relation
    (ddl : PartitionCreator) (backend : nat) (w : World)
    (parent_oid : Oid) (prel : PartRelationInfo) :
  catalog w !! parent_oid = Some prel ->
  parttype prel = PT_RANGE ->
  PrelChildrenCount prel < 2 ^ 32 ->
  match head (ranges prel), last (ranges prel) with
  | Some first, Some final =>
      run backend w (get_min_range_value parent_oid) = (w, Returns (min first))
      /\ run backend w (get_max_range_value parent_oid)
         = (w, Returns (max final))
  | _, _ =>
      ranges prel = []
      /\ run backend w (get_min_range_value parent_oid) = (w, Faults)
      /\ run backend w (get_max_range_value parent_oid) = (w, Faults)
  end.
Proof.
  intros Hprel Hrange Hcount.
  unfold get_min_range_value, get_max_range_value. simpl. rewrite Hprel.
  unfold check_range_strategy, PrelGetRangesArray. rewrite Hrange. simpl.
  unfold PrelChildrenCount in *. rewrite Hrange in *.
  destruct (ranges prel) as [| first rest] eqn:Hrs.
  - simpl. repeat split; reflexivity.
  - rewrite <- Hrs in *. 
    assert (Hlen : (0 < length (ranges prel))%nat) by (rewrite Hrs; simpl; lia).
    assert (Hhead : head (ranges prel) = Some first)
      by (rewrite Hrs; reflexivity).
    rewrite Hhead.
    destruct (lookup_lt_is_Some_2 (ranges prel) (pred (length (ranges prel))))
      as [final Hfinal]; [lia |].
    rewrite last_lookup, Hfinal. split.
    + rewrite run_bind. change 0 with (Z.of_nat 0).
      rewrite (run_array_get (ranges prel) 0 first).
      * reflexivity.
      * rewrite <- head_lookup. exact Hhead.
    + rewrite run_bind.
      replace (uint32 (Z.of_nat (length (ranges prel)) - 1))
        with (Z.of_nat (pred (length (ranges prel)))).
      * rewrite (run_array_get _ _ final) by exact Hfinal. reflexivity.
      * rewrite uint32_id by lia. lia.
Qed.

Lemma global_bounds_of_range_relation_witness :
  run (ddl := Scenario.failing) 0 Scenario.world0
      (get_min_range_value Scenario.parent) = (Scenario.world0, Returns 0)
  /\ run (ddl := Scenario.failing) 0 Scenario.world0
      (get_max_range_value Scenario.parent) = (Scenario.world0, Returns 40).
Proof.
  apply (global_bounds_of_range_relation Scenario.failing 0%nat Scenario.world0
           Scenario.parent Scenario.descriptor); [reflexivity | reflexivity |].
  vm_compute. reflexivity.
Defined.

(** ** Range by index *)

Lemma int32_id (z : Z) : 0 <= z < 2 ^ 31 -> int32 z = z.
Proof.
  intros Hz. unfold int32. rewrite Z.mod_small by lia.
  destruct (Z.ltb_spec z (2 ^ 31)) as [_ | Hge]; [reflexivity | lia].
Qed.

(** What [get_range_by_idx] does on a RANGE relation, case by case: the
    test on the magnitude of the index comes first, then the test for
    negative indices other than -1. *)
Lemma get_range_by_idx_cases
    (ddl : PartitionCreator) (backend : nat) (w : World)
    (parent_oid : Oid) (prel : PartRelationInfo) (idx : Z) :
  catalog w !! parent_oid = Some prel ->
  parttype prel = PT_RANGE ->
  PrelChildrenCount prel < 2 ^ 31 ->
  - 2 ^ 31 <= idx < 2 ^ 31 ->
  run backend w (get_range_by_idx parent_oid idx) =
  if Z.abs idx >=? PrelChildrenCount prel then (w, Raises PartitionNotFound)
  else if idx <? -1 then (w, Raises InvalidIndex)
  else
    match ranges prel !! Z.to_nat (if idx =? -1
                                   then PrelChildrenCount prel - 1
                                   else idx) with
    | Some re => (w, Returns (min re, max re))
    | None => (w, Faults)
    end.
Proof.
  intros Hprel Hrange Hcount Hidx.
  unfold get_range_by_idx. simpl. rewrite Hprel.
  unfold PrelGetRangesArray.
  assert (Hc : PrelChildrenCount prel = Z.of_nat (length (ranges prel)))
    by (unfold PrelChildrenCount; rewrite Hrange; reflexivity).
  rewrite (uint32_id (Z.abs idx)) by lia.
  destruct (Z.geb_spec (Z.abs idx) (PrelChildrenCount prel)) as [Hbig | Hsmall];
    [reflexivity |].
  destruct (Z.eqb_spec idx (-1)) as [-> | Hne].
  - simpl. rewrite int32_id by (simpl in Hsmall; lia).
    destruct (lookup_lt_is_Some_2 (ranges prel)
                (Z.to_nat (PrelChildrenCount prel - 1))) as [re Hre];
      [simpl in Hsmall; lia |].
    rewrite Hre, run_bind.
    replace (PrelChildrenCount prel - 1)
      with (Z.of_nat (Z.to_nat (PrelChildrenCount prel - 1)))
      by (simpl in Hsmall; lia).
    rewrite (run_array_get _ _ re) by exact Hre. reflexivity.
  - destruct (Z.ltb_spec idx (-1)) as [Hneg | Hpos]; [reflexivity |].
    simpl.
    destruct (lookup_lt_is_Some_2 (ranges prel) (Z.to_nat idx)) as [re Hre];
      [lia |].
    rewrite Hre, run_bind.
    replace idx with (Z.of_nat (Z.to_nat idx)) at 1 by lia.
    rewrite (run_array_get _ _ re) by exact Hre. reflexivity.
Qed.

(** C7, failing input.  On a relation with a single partition, index -1 is
    refused with the partition-does-not-exist failure although index
    [child_count - 1 = 0] returns the bounds of that partition; and a negative
    index whose magnitude reaches the child count (-2 here, -3 on the relation
    with three partitions) is refused with the same failure and not with the
    negative-index one. *)
Theorem range_by_idx_last_of_single_partition :
  PrelChildrenCount Scenario.lonely_descriptor - 1 = 0
  /\ run (ddl := Scenario.failing) 0 Scenario.world0
       (get_range_by_idx Scenario.lonely (-1))
     = (Scenario.world0, Raises PartitionNotFound)
  /\ run (ddl := Scenario.failing) 0 Scenario.world0
       (get_range_by_idx Scenario.lonely 0)
     = (Scenario.world0, Returns (0, 10))
  /\ run (ddl := Scenario.failing) 0 Scenario.world0
       (get_range_by_idx Scenario.lonely (-2))
     = (Scenario.world0, Raises PartitionNotFound)
  /\ run (ddl := Scenario.failing) 0 Scenario.world0
       (get_range_by_idx Scenario.parent (-3))
     = (Scenario.world0, Raises PartitionNotFound).
Proof.
  repeat split; reflexivity.
Qed.

(** ** Lookup with creation: one backend *)

Lemma holds_config_holder backend c e t :
  holds backend load_config_lock (mkWorld c (Some backend) e t) = true.
Proof. unfold holds. simpl. apply Nat.eqb_refl. Qed.

Lemma holds_edit_holder backend c h t :
  holds backend edit_partitions_lock (mkWorld c h (Some backend) t) = true.
Proof. unfold holds. simpl. apply Nat.eqb_refl. Qed.

Section OneBackend.

Context {types : TypeSystem} {search : RangeSearch} {ddl : PartitionCreator}.
Variables (backend : nat) (parent_oid : Oid) (value : Datum) (value_type : Oid).

(** The call once the descriptor has been fetched: a value out of all ranges
    of that descriptor leads to the locks and, whatever the catalog says by
    then, to the creation collaborator. *)
Lemma run_body_out_of_range w prel :
  search_range_partition_eq value
    (fill_type_cmp_fmgr_info value_type (atttype prel)) prel
    = SEARCH_RANGEREL_OUT_OF_RANGE ->
  locks_free w ->
  run backend w
      (find_or_create_body parent_oid value value_type (Some prel)) =
  let held :=
    mkWorld (catalog w) (Some backend) (Some backend)
      (trace w ++ [EvAcquire backend load_config_lock;
                   EvAcquire backend edit_partitions_lock;
                   EvCreate backend parent_oid value value_type]) in
  match create_partitions_internal (catalog w) parent_oid value value_type with
  | DdlOk catalog' child =>
      (mkWorld catalog' None None
         (trace held ++ [EvRelease backend load_config_lock;
                         EvRelease backend edit_partitions_lock]),
       Returns (Some child))
  | DdlFail e => (held, Raises e)
  end.
Proof.
  intros Hsearch [Hc He]. unfold find_or_create_body. rewrite Hsearch.
  destruct w as [cat ch eh tr]. simpl in Hc, He. subst ch eh.
  simpl. unfold emit, set_holder, set_catalog. simpl.
  rewrite <- !app_assoc. simpl.
  destruct (create_partitions_internal cat parent_oid value value_type)
    as [catalog' child | e].
  - simpl. rewrite holds_config_holder. simpl. rewrite holds_edit_holder.
    reflexivity.
  - reflexivity.
Qed.

End OneBackend.

(** C9 as stated fails: on the creation path for the value 45 the history
    shows [load_config_lock] released first, while [edit_partitions_lock] is
    still held, and [edit_partitions_lock] released last. *)
Lemma creation_path_releases_config_lock_first :
  let w' := fst (run (ddl := Scenario.appending) 0 Scenario.world0
                   (find_or_create_range_partition
                      (types := Scenario.int4_types)
                      (search := find_owner_search)
                      Scenario.parent 45 Scenario.INT4OID)) in
  trace w' = [EvAcquire 0 load_config_lock; EvAcquire 0 edit_partitions_lock;
              EvCreate 0 Scenario.parent 45 Scenario.INT4OID;
              EvRelease 0 load_config_lock; EvRelease 0 edit_partitions_lock]
  /\ releases (trace w') = [load_config_lock; edit_partitions_lock]
  /\ releases (trace w') <> [edit_partitions_lock; load_config_lock]
  /\ config_released_under_edit false (trace w') = true.
Proof.
  vm_compute. repeat split; try reflexivity. discriminate.
Qed.

(** C9, amended.  On the successful creation path (descriptor present, value
    out of all its ranges, both locks free, collaborator succeeds) the call
    acquires [load_config_lock] then [edit_partitions_lock], calls the
    collaborator once, releases [load_config_lock] first and
    [edit_partitions_lock] second, and returns the new child oid with both
    locks free. *)
Theorem creation_path_release_order
    (types : TypeSystem) (search : RangeSearch) (ddl : PartitionCreator)
    (backend : nat) (w : World)
    (parent_oid : Oid) (value : Datum) (value_type : Oid)
    (prel : PartRelationInfo) (catalog' : gmap Z PartRelationInfo)
    (child : Oid) :
  catalog w !! parent_oid = Some prel ->
  search_range_partition_eq value
    (fill_type_cmp_fmgr_info value_type (atttype prel)) prel
    = SEARCH_RANGEREL_OUT_OF_RANGE ->
  locks_free w ->
  create_partitions_internal (catalog w) parent_oid value value_type
    = DdlOk catalog' child ->
  run backend w (find_or_create_range_partition parent_oid value value_type)
  = (mkWorld catalog' None None
       (trace w ++ [EvAcquire backend load_config_lock;
                    EvAcquire backend edit_partitions_lock;
                    EvCreate backend parent_oid value value_type;
                    EvRelease backend load_config_lock;
                    EvRelease backend edit_partitions_lock]),
     Returns (Some child)).
Proof.
  intros Hprel Hsearch Hfree Hddl.
  unfold find_or_create_range_partition. simpl. rewrite Hprel.
  rewrite (run_body_out_of_range backend parent_oid value value_type w prel
             Hsearch Hfree).
  rewrite Hddl. simpl. rewrite <- app_assoc. reflexivity.
Qed.

Lemma creation_path_release_order_witness :
  run (ddl := Scenario.appending) 0 Scenario.world0
      (find_or_create_range_partition (types := Scenario.int4_types)
                                      (search := find_owner_search)
         Scenario.parent 45 Scenario.INT4OID)
  = (mkWorld
       (<[Scenario.parent :=
            mkPartRelationInfo PT_RANGE Scenario.INT4OID
              (Scenario.entries ++ [mkRangeEntry 16388 45 46]) 0]>
          (catalog Scenario.world0))
       None None
       (trace Scenario.world0
          ++ [EvAcquire 0 load_config_lock; EvAcquire 0 edit_partitions_lock;
              EvCreate 0 Scenario.parent 45 Scenario.INT4OID;
              EvRelease 0 load_config_lock; EvRelease 0 edit_partitions_lock]),
     Returns (Some 16388)).
Proof.
  apply (creation_path_release_order Scenario.int4_types find_owner_search
           Scenario.appending
           0%nat Scenario.world0 Scenario.parent 45 Scenario.INT4OID
           Scenario.descriptor).
  - reflexivity.
  - reflexivity.
  - split; reflexivity.
  - reflexivity.
Defined.

(** C4 as stated fails: when the collaborator's DDL fails for the value 45,
    the failure leaves the call while backend 0 still holds both locks; the
    history records no release. *)
Lemma ddl_failure_leaves_both_locks_held :
  let r := run (ddl := Scenario.failing) 0 Scenario.world0
             (find_or_create_range_partition (types := Scenario.int4_types)
                                             (search := find_owner_search)
                Scenario.parent 45 Scenario.INT4OID) in
  snd r = Raises (DdlError 1)
  /\ config_holder (fst r) = Some 0%nat
  /\ edit_holder (fst r) = Some 0%nat
  /\ releases (trace (fst r)) = [].
Proof.
  vm_compute. repeat split; reflexivity.
Qed.

(** C4, amended.  Started with both locks free, the call ends in one of two
    ways.  Either it returns, and then both locks are free again; or the
    creation collaborator failed, and then that failure leaves the call with
    both locks still held by the calling backend (the routine itself releases
    nothing on that path).  It never blocks, faults or releases a lock it does
    not hold. *)
Theorem locks_at_exit
    (types : TypeSystem) (search : RangeSearch) (ddl : PartitionCreator)
    (backend : nat) (w : World)
    (parent_oid : Oid) (value : Datum) (value_type : Oid) :
  locks_free w ->
  match run backend w
          (find_or_create_range_partition parent_oid value value_type) with
  | (w', Returns _) => locks_free w'
  | (w', Raises e) =>
      create_partitions_internal (catalog w) parent_oid value value_type
        = DdlFail e
      /\ config_holder w' = Some backend
      /\ edit_holder w' = Some backend
  | (_, _) => False
  end.
Proof.
  intros Hfree.
  unfold find_or_create_range_partition. simpl.
  destruct (catalog w !! parent_oid) as [prel |]; [| exact Hfree].
  destruct (search_range_partition_eq value
              (fill_type_cmp_fmgr_info value_type (atttype prel)) prel)
    as [| | found_rentry] eqn:Hsearch.
  - rewrite (run_body_out_of_range backend parent_oid value value_type w prel
               Hsearch Hfree).
    simpl.
    destruct (create_partitions_internal (catalog w) parent_oid value
                value_type) as [catalog' child | e].
    + split; reflexivity.
    + repeat split; reflexivity.
  - unfold find_or_create_body. rewrite Hsearch. exact Hfree.
  - unfold find_or_create_body. rewrite Hsearch. exact Hfree.
Qed.

Lemma locks_at_exit_witness :
  create_partitions_internal (PartitionCreator := Scenario.failing)
    (catalog Scenario.world0) Scenario.parent 45 Scenario.INT4OID
    = DdlFail (DdlError 1)
  /\ config_holder
       (fst (run (ddl := Scenario.failing) 0 Scenario.world0
               (find_or_create_range_partition (types := Scenario.int4_types)
                                               (search := find_owner_search)
                  Scenario.parent 45 Scenario.INT4OID))) = Some 0%nat
  /\ edit_holder
       (fst (run (ddl := Scenario.failing) 0 Scenario.world0
               (find_or_create_range_partition (types := Scenario.int4_types)
                                               (search := find_owner_search)
                  Scenario.parent 45 Scenario.INT4OID))) = Some 0%nat.
Proof.
  apply (locks_at_exit Scenario.int4_types find_owner_search Scenario.failing
           0%nat
           Scenario.world0 Scenario.parent 45 Scenario.INT4OID).
  split; reflexivity.
Defined.

(** ** Range search: a value in a gap *)

(** One round of the binary search. *)
Lemma bsearch_round cmp_func rs value fuel lo hi :
  bsearch cmp_func rs value (S fuel) lo hi =
  if (hi <=? lo)%nat then miss (length rs) lo
  else
    match rs !! (lo + (hi - lo) / 2)%nat with
    | None => miss (length rs) lo
    | Some re =>
        if FunctionCall2 cmp_func value (min re) <? 0
        then bsearch cmp_func rs value fuel lo (lo + (hi - lo) / 2)%nat
        else if FunctionCall2 cmp_func value (max re) <? 0
        then Found re
        else bsearch cmp_func rs value fuel (S (lo + (hi - lo) / 2)%nat) hi
    end.
Proof. reflexivity. Qed.

(** The search does not depend on the fuel once there is enough of it, so
    [find_owner] never stops for lack of fuel. *)
Lemma bsearch_enough_fuel cmp_func rs value :
  forall fuel fuel' lo hi : nat,
    (hi - lo <= fuel)%nat ->
    (hi - lo <= fuel')%nat ->
    bsearch cmp_func rs value fuel lo hi
    = bsearch cmp_func rs value fuel' lo hi.
Proof.
  induction fuel as [| fuel IH]; intros fuel' lo hi Hf Hf'.
  - destruct fuel' as [| fuel']; [reflexivity |].
    rewrite bsearch_round. simpl.
    destruct (Nat.leb_spec hi lo) as [_ | Hlt]; [reflexivity | lia].
  - destruct fuel' as [| fuel'].
    + rewrite bsearch_round. simpl.
      destruct (Nat.leb_spec hi lo) as [_ | Hlt]; [reflexivity | lia].
    + rewrite !bsearch_round.
      destruct (Nat.leb_spec hi lo) as [_ | Hlt]; [reflexivity |].
      pose proof (Nat.div_lt (hi - lo) 2 ltac:(lia) ltac:(lia)) as Hdiv.
      destruct (rs !! (lo + (hi - lo) / 2)%nat) as [re |]; [| reflexivity].
      destruct (FunctionCall2 cmp_func value (min re) <? 0).
      * apply IH; lia.
      * destruct (FunctionCall2 cmp_func value (max re) <? 0);
          [reflexivity | apply IH; lia].
Qed.

Section SearchFacts.

Variables (cmp_val cmp_att : Datum -> Datum -> Z) (value : Datum).

Lemma ranges_sorted_min_max rs (j : nat) re :
  ranges_sorted cmp_att rs = true ->
  rs !! j = Some re ->
  cmp_att (min re) (max re) < 0.
Proof.
  revert j. induction rs as [| r rest IH]; intros j Hs Hj.
  - discriminate.
  - simpl in Hs. apply andb_true_iff in Hs. destruct Hs as [Hs Hrest].
    apply andb_true_iff in Hs. destruct Hs as [Hmm _].
    destruct j as [| j]; simpl in Hj.
    + injection Hj as <-. apply Z.ltb_lt. exact Hmm.
    + exact (IH j Hrest Hj).
Qed.

Lemma ranges_sorted_adjacent rs (j : nat) re next :
  ranges_sorted cmp_att rs = true ->
  rs !! j = Some re ->
  rs !! S j = Some next ->
  cmp_att (max re) (min next) <= 0.
Proof.
  revert j. induction rs as [| r rest IH]; intros j Hs Hj Hn.
  - discriminate.
  - simpl in Hs. apply andb_true_iff in Hs. destruct Hs as [Hs Hrest].
    apply andb_true_iff in Hs. destruct Hs as [_ Hadj].
    destruct j as [| j]; simpl in Hj, Hn.
    + injection Hj as <-. destruct rest as [| n rest']; [discriminate |].
      simpl in Hn. injection Hn as <-. apply Z.leb_le. exact Hadj.
    + exact (IH j Hrest Hj Hn).
Qed.

Variable rs : list RangeEntry.
Hypothesis Hsorted : ranges_sorted cmp_att rs = true.
Hypothesis Hcons : cmp_consistent cmp_val cmp_att value.

(** From an entry the value is not below, downwards: the value is below
    neither bound of any earlier entry. *)
Lemma not_below_earlier (i : nat) lower :
  rs !! i = Some lower ->
  0 <= cmp_val value (max lower) ->
  forall (k j : nat) re, (j + k = i)%nat -> rs !! j = Some re ->
    0 <= cmp_val value (min re) /\ 0 <= cmp_val value (max re).
Proof using Hsorted Hcons.
  intros Hi Hmax.
  assert (Hstep : forall re, cmp_att (min re) (max re) < 0 ->
            0 <= cmp_val value (max re) -> 0 <= cmp_val value (min re)).
  { intros re Hmm Hge.
    destruct (Z.lt_ge_cases (cmp_val value (min re)) 0) as [Hlt | Hok];
      [| exact Hok].
    pose proof (Hcons (min re) (max re) ltac:(lia) Hlt). lia. }
  induction k as [| k IH]; intros j re Hjk Hj.
  - assert (j = i) by lia. subst j. rewrite Hi in Hj. injection Hj as <-.
    split; [| exact Hmax].
    apply Hstep; [| exact Hmax].
    exact (ranges_sorted_min_max rs i lower Hsorted Hi).
  - destruct (lookup_lt_is_Some_2 rs (S j)) as [next Hnext].
    { pose proof (lookup_lt_Some rs i lower Hi). lia. }
    destruct (IH (S j) next ltac:(lia) Hnext) as [Hnmin _].
    pose proof (ranges_sorted_adjacent rs j re next Hsorted Hj Hnext) as Hadj.
    assert (Hremax : 0 <= cmp_val value (max re)).
    { destruct (Z.lt_ge_cases (cmp_val value (max re)) 0) as [Hlt | Hok];
        [| exact Hok].
      pose proof (Hcons (max re) (min next) Hadj Hlt). lia. }
    split; [| exact Hremax].
    apply Hstep; [| exact Hremax].
    exact (ranges_sorted_min_max rs j re Hsorted Hj).
Qed.

(** From an entry the value is below, upwards: the value is below the [min]
    of every later entry. *)
Lemma below_later (i : nat) upper :
  rs !! i = Some upper ->
  cmp_val value (min upper) < 0 ->
  forall (k : nat) re, rs !! (i + k)%nat = Some re ->
    cmp_val value (min re) < 0.
Proof using Hsorted Hcons.
  intros Hi Hmin.
  induction k as [| k IH]; intros re Hj.
  - rewrite Nat.add_0_r, Hi in Hj. injection Hj as <-. exact Hmin.
  - destruct (lookup_lt_is_Some_2 rs (i + k)) as [prev Hprev].
    { pose proof (lookup_lt_Some rs _ re Hj). lia. }
    pose proof (IH prev Hprev) as Hpmin.
    replace (i + S k)%nat with (S (i + k)) in Hj by lia.
    pose proof (ranges_sorted_min_max rs _ prev Hsorted Hprev) as Hmm.
    pose proof (ranges_sorted_adjacent rs _ prev re Hsorted Hprev Hj) as Hadj.
    apply (Hcons (max prev) (min re) Hadj).
    apply (Hcons (min prev) (max prev)); [lia | exact Hpmin].
Qed.

(** Binary search ends at the insertion point [g] when the value is below
    neither bound of the entries before [g] and below the [min] of the entries
    from [g] on; [fuel >= hi - lo] rounds are enough. *)
Lemma bsearch_miss (g : nat) :
  forall fuel lo hi : nat,
    (lo <= g <= hi)%nat ->
    (hi <= length rs)%nat ->
    (hi - lo <= fuel)%nat ->
    (forall (j : nat) re, (lo <= j < g)%nat -> rs !! j = Some re ->
       0 <= cmp_val value (min re) /\ 0 <= cmp_val value (max re)) ->
    (forall (j : nat) re, (g <= j < hi)%nat -> rs !! j = Some re ->
       cmp_val value (min re) < 0) ->
    bsearch cmp_val rs value fuel lo hi = miss (length rs) g.
Proof.
  induction fuel as [| fuel IH]; intros lo hi Hg Hhi Hfuel Hlow Hhigh.
  - simpl. replace lo with g by lia. reflexivity.
  - rewrite bsearch_round. destruct (Nat.leb_spec hi lo) as [Hle | Hlt].
    + replace lo with g by lia. reflexivity.
    + pose proof (Nat.div_lt (hi - lo) 2 ltac:(lia) ltac:(lia)) as Hdiv.
      set (mid := (lo + (hi - lo) / 2)%nat) in *.
      assert (Hmid : (lo <= mid < hi)%nat) by (unfold mid; lia).
      destruct (lookup_lt_is_Some_2 rs mid) as [re Hre]; [lia |].
      rewrite Hre. unfold FunctionCall2.
      destruct (Nat.lt_ge_cases mid g) as [Hbefore | Hafter].
      * destruct (Hlow mid re ltac:(lia) Hre) as [Hmin Hmax].
        destruct (Z.ltb_spec (cmp_val value (min re)) 0) as [Hc | _]; [lia |].
        destruct (Z.ltb_spec (cmp_val value (max re)) 0) as [Hc | _]; [lia |].
        apply IH; try lia.
        -- intros j r Hj. apply Hlow. lia.
        -- exact Hhigh.
      * pose proof (Hhigh mid re ltac:(lia) Hre) as Hmin.
        destruct (Z.ltb_spec (cmp_val value (min re)) 0) as [_ | Hc]; [| lia].
        apply IH; try lia.
        -- exact Hlow.
        -- intros j r Hj. apply Hhigh. lia.
Qed.

(** A value that is not below the [max] of entry [i] and is below the [min]
    of entry [i + 1] is reported as the gap between the two. *)
Lemma find_owner_gap (i : nat) lower upper :
  rs !! i = Some lower ->
  rs !! S i = Some upper ->
  0 <= cmp_val value (max lower) ->
  cmp_val value (min upper) < 0 ->
  find_owner cmp_val rs value = Gap i (S i).
Proof using Hsorted Hcons.
  intros Hi HSi Hmax Hmin.
  pose proof (lookup_lt_Some rs _ _ HSi) as Hlen.
  unfold find_owner.
  rewrite (bsearch_miss (S i) (length rs) 0 (length rs)); try lia.
  - unfold miss. simpl.
    destruct (Nat.leb_spec (length rs) (S i)) as [Hge | _]; [lia |].
    rewrite Nat.sub_0_r. reflexivity.
  - intros j re Hj Hre.
    apply (not_below_earlier i lower Hi Hmax (i - j) j re); [lia | exact Hre].
  - intros j re Hj Hre.
    apply (below_later (S i) upper HSi Hmin (j - S i) re).
    replace (S i + (j - S i))%nat with j by lia. exact Hre.
Qed.

End SearchFacts.

Lemma btint4cmp_consistent (value : Datum) :
  cmp_consistent Scenario.btint4cmp Scenario.btint4cmp value.
Proof.
  intros a b. unfold Scenario.btint4cmp.
  destruct (Z.compare_spec a b), (Z.compare_spec value a),
    (Z.compare_spec value b); lia.
Qed.

(** C2.  For a RANGE relation whose ranges satisfy the descriptor invariant,
    and a value strictly between two neighbouring entries (above the [max] of
    entry [i], below the [min] of entry [i + 1]), the lookup returns SQL NULL
    and leaves the world exactly as it was: no lock is taken and the creation
    collaborator is not called. *)
Theorem gap_lookup_returns_null
    (types : TypeSystem) (ddl : PartitionCreator) (backend : nat) (w : World)
    (parent_oid : Oid) (value : Datum) (value_type : Oid)
    (prel : PartRelationInfo) (i : nat) (lower upper : RangeEntry) :
  catalog w !! parent_oid = Some prel ->
  parttype prel = PT_RANGE ->
  ranges_sorted (fill_type_cmp_fmgr_info (atttype prel) (atttype prel))
    (ranges prel) = true ->
  cmp_consistent (fill_type_cmp_fmgr_info value_type (atttype prel))
    (fill_type_cmp_fmgr_info (atttype prel) (atttype prel)) value ->
  ranges prel !! i = Some lower ->
  ranges prel !! S i = Some upper ->
  0 < fill_type_cmp_fmgr_info value_type (atttype prel) value (max lower) ->
  fill_type_cmp_fmgr_info value_type (atttype prel) value (min upper) < 0 ->
  run backend w
      (find_or_create_range_partition (search := find_owner_search)
         parent_oid value value_type)
    = (w, Returns None).
Proof.
  intros Hprel _ Hsorted Hcons Hi HSi Hmax Hmin.
  unfold find_or_create_range_partition. simpl. rewrite Hprel.
  unfold find_or_create_body, search_range_partition_eq, find_owner_search,
    PrelGetRangesArray.
  rewrite (find_owner_gap _ _ value (ranges prel) Hsorted Hcons i lower upper
             Hi HSi (Z.lt_le_incl _ _ Hmax) Hmin).
  reflexivity.
Qed.

(** The value 25 lies between [10,20) and [30,40). *)
Lemma gap_lookup_returns_null_witness :
  run (ddl := Scenario.appending) 0 Scenario.world0
      (find_or_create_range_partition (types := Scenario.int4_types)
                                      (search := find_owner_search)
         Scenario.parent 25 Scenario.INT4OID)
    = (Scenario.world0, Returns None).
Proof.
  apply (gap_lookup_returns_null Scenario.int4_types Scenario.appending 0%nat
           Scenario.world0 Scenario.parent 25 Scenario.INT4OID
           Scenario.descriptor 1%nat
           (mkRangeEntry 16386 10 20) (mkRangeEntry 16387 30 40)).
  - reflexivity.
  - reflexivity.
  - reflexivity.
  - apply btint4cmp_consistent.
  - reflexivity.
  - reflexivity.
  - vm_compute. reflexivity.
  - vm_compute. reflexivity.
Defined.

(** ** Lookup with creation: the second search and racing backends *)

(** C3, failing input.  Backend 0 fetched the scenario's descriptor; backend 1
    then completed the whole call for the value 45, so the catalog now holds
    the partition 16388 covering [45,46) and a search of the current
    descriptor finds it.  Backend 0, resuming with both locks free, searches
    the descriptor it fetched earlier, finds nothing, calls the creation
    collaborator and returns a second partition, 16389. *)
Theorem second_search_uses_stale_descriptor :
  let types := Scenario.int4_types in
  let search := find_owner_search in
  let world1 :=
    fst (run (ddl := Scenario.appending) 1 Scenario.world0
           (find_or_create_range_partition Scenario.parent 45 Scenario.INT4OID))
  in
  catalog Scenario.world0 !! Scenario.parent = Some Scenario.descriptor
  /\ locks_free world1
  /\ (exists fresh,
        catalog world1 !! Scenario.parent = Some fresh
        /\ search_range_partition_eq 45 Scenario.btint4cmp fresh
           = SEARCH_RANGEREL_FOUND (mkRangeEntry 16388 45 46))
  /\ run (ddl := Scenario.appending) 0 world1
       (find_or_create_body Scenario.parent 45 Scenario.INT4OID
          (Some Scenario.descriptor))
     = (mkWorld
          (<[Scenario.parent :=
               mkPartRelationInfo PT_RANGE Scenario.INT4OID
                 (Scenario.entries ++ [mkRangeEntry 16388 45 46;
                                       mkRangeEntry 16389 45 46]) 0]>
             (catalog Scenario.world0))
          None None
          (trace world1
             ++ [EvAcquire 0 load_config_lock;
                 EvAcquire 0 edit_partitions_lock;
                 EvCreate 0 Scenario.parent 45 Scenario.INT4OID;
                 EvRelease 0 load_config_lock;
                 EvRelease 0 edit_partitions_lock]),
        Returns (Some 16389)).
Proof.
  cbv zeta. split; [reflexivity |]. split; [split; reflexivity |]. split.
  - eexists. split; reflexivity.
  - vm_compute. reflexivity.
Qed.

Lemma create_calls_app (t1 t2 : list Event) :
  create_calls (t1 ++ t2) = (create_calls t1 + create_calls t2)%nat.
Proof.
  unfold create_calls. rewrite List.filter_app, length_app. reflexivity.
Qed.

(** One entry of the schedule, for a backend in the middle of its call. *)
Lemma interleave_active {A : Type} (ddl : PartitionCreator) (backend : nat)
    (rest : list nat) (w : World) (pool : list (Thread A)) (p : Prog A) :
  pool !! backend = Some (Active p) ->
  interleave (backend :: rest) w pool =
  match step backend w p with
  | Continue w' p' => interleave rest w' (<[backend := Active p']> pool)
  | Halt _ (Blocks _) => interleave rest w pool
  | Halt w' o => interleave rest w' (<[backend := Finished o]> pool)
  end.
Proof. intros Hp. simpl. rewrite Hp. reflexivity. Qed.

(** A pool whose only backend has left its call stays as it is. *)
Lemma interleave_left {A : Type} (ddl : PartitionCreator) (m : nat)
    (w : World) (o : Outcome A) :
  interleave (replicate m 0%nat) w [Finished o] = (w, [Finished o]).
Proof. induction m as [| m IH]; [reflexivity | exact IH]. Qed.

(** A backend scheduled alone, often enough, does what [run] says, provided
    it never waits for a lock. *)
Lemma interleave_alone {A : Type} (ddl : PartitionCreator) (p : Prog A) :
  forall w : World,
    (forall l, snd (run 0 w p) <> Blocks l) ->
    exists n : nat, forall m : nat, (n <= m)%nat ->
      interleave (replicate m 0%nat) w [Active p]
      = (fst (run 0 w p), [Finished (snd (run 0 w p))]).
Proof.
  induction p as [a | e | | relid k IH | l k IH | l k IH | pa v t k IH];
    intros w Hfree.
  - exists 1%nat. intros [| m] Hm; [lia |]. apply interleave_left.
  - exists 1%nat. intros [| m] Hm; [lia |]. apply interleave_left.
  - exists 1%nat. intros [| m] Hm; [lia |]. apply interleave_left.
  - destruct (IH (catalog w !! relid) w Hfree) as [n Hn].
    exists (S n). intros [| m] Hm; [lia |]. apply Hn. lia.
  - simpl in Hfree |- *. destruct (holder l w) as [b |] eqn:Hl.
    + exfalso. exact (Hfree l eq_refl).
    + destruct (IH _ Hfree) as [n Hn].
      exists (S n). intros [| m] Hm; [lia |].
      simpl. rewrite Hl. apply Hn. lia.
  - simpl in Hfree |- *. destruct (holds 0 l w) eqn:Hl.
    + destruct (IH _ Hfree) as [n Hn].
      exists (S n). intros [| m] Hm; [lia |].
      simpl. rewrite Hl. apply Hn. lia.
    + exists 1%nat. intros [| m] Hm; [lia |].
      simpl. rewrite Hl. apply interleave_left.
  - simpl in Hfree |- *.
    destruct (create_partitions_internal (catalog w) pa v t)
      as [catalog' child | e] eqn:Hddl.
    + destruct (IH child _ Hfree) as [n Hn].
      exists (S n). intros [| m] Hm; [lia |].
      simpl. rewrite Hddl. apply Hn. lia.
    + exists 1%nat. intros [| m] Hm; [lia |].
      simpl. rewrite Hddl. apply interleave_left.
Qed.

(** One entry of the schedule, for a backend that has left its call. *)
Lemma interleave_finished {A : Type} (ddl : PartitionCreator) (backend : nat)
    (rest : list nat) (w : World) (pool : list (Thread A)) (o : Outcome A) :
  pool !! backend = Some (Finished o) ->
  interleave (backend :: rest) w pool = interleave rest w pool.
Proof. intros Hp. simpl. rewrite Hp. reflexivity. Qed.

(** Performs the next entry of the schedule in the goal. *)
Ltac schedule_step :=
  match goal with
  | |- context [interleave (?b :: ?rest) ?w ?pool] =>
      let r := fresh "rest" in
      let Hr := fresh "Hrest" in
      remember rest as r eqn:Hr;
      first [ erewrite (interleave_active _ b r w pool) by reflexivity
            | erewrite (interleave_finished _ b r w pool) by reflexivity ];
      simpl;
      rewrite ?holds_config_holder, ?holds_edit_holder;
      subst r
  end.

(** X15.  Whatever the search and the creation collaborator do, two backends
    that both fetched the descriptor before either took the locks both call
    the collaborator (provided its first call succeeds): the second search
    under the locks cannot see what the other backend registered. *)
Lemma racing_callers_call_twice
    (types : TypeSystem) (search : RangeSearch) (ddl : PartitionCreator)
    (w : World)
    (parent_oid : Oid) (value : Datum) (value_type : Oid)
    (prel : PartRelationInfo) (catalog1 : gmap Z PartRelationInfo)
    (child1 : Oid) :
  catalog w !! parent_oid = Some prel ->
  search_range_partition_eq value
    (fill_type_cmp_fmgr_info value_type (atttype prel)) prel
    = SEARCH_RANGEREL_OUT_OF_RANGE ->
  locks_free w ->
  create_partitions_internal (catalog w) parent_oid value value_type
    = DdlOk catalog1 child1 ->
  let p := find_or_create_range_partition parent_oid value value_type in
  create_calls
    (trace (fst (interleave racing_schedule w [Active p; Active p])))
  = (create_calls (trace w) + 2)%nat.
Proof.
  intros Hprel Hsearch [Hc He] Hddl p.
  destruct w as [cat ch eh tr]. simpl in Hprel, Hc, He, Hddl. subst ch eh.
  unfold racing_schedule, p, find_or_create_range_partition.
  (* both backends fetch the descriptor *)
  schedule_step. rewrite Hprel. unfold find_or_create_body at 1.
  rewrite Hsearch.
  schedule_step. rewrite Hprel. unfold find_or_create_body at 1.
  rewrite Hsearch.
  (* backend 0 runs to its end *)
  schedule_step. schedule_step. schedule_step. rewrite Hddl.
  schedule_step. schedule_step. schedule_step.
  (* backend 1 runs to its end *)
  schedule_step. schedule_step. schedule_step.
  destruct (create_partitions_internal catalog1 parent_oid value value_type)
    as [catalog2 child2 | e].
  - schedule_step. schedule_step. schedule_step.
    simpl. rewrite !create_calls_app. unfold create_calls. simpl. lia.
  - schedule_step. schedule_step. schedule_step.
    simpl. rewrite !create_calls_app. unfold create_calls. simpl. lia.
Qed.

(** C1, failing input.  Two backends call the routine for the value 45, which
    is above all ranges; both fetch the descriptor before either takes the
    locks.  The locks serialize them, but each searches again the descriptor
    it fetched at the start: the creation collaborator is called twice, two
    partitions are registered for the value and the two callers receive
    different child oids. *)
Theorem racing_callers_both_create :
  let types := Scenario.int4_types in
  let search := find_owner_search in
  let p := find_or_create_range_partition Scenario.parent 45 Scenario.INT4OID in
  let r := interleave (ddl := Scenario.appending) racing_schedule
             Scenario.world0 [Active p; Active p] in
  snd r = [Finished (Returns (Some 16388)); Finished (Returns (Some 16389))]
  /\ create_calls (trace (fst r)) = 2%nat
  /\ trace (fst r)
     = [EvAcquire 0 load_config_lock; EvAcquire 0 edit_partitions_lock;
        EvCreate 0 Scenario.parent 45 Scenario.INT4OID;
        EvRelease 0 load_config_lock; EvRelease 0 edit_partitions_lock;
        EvAcquire 1 load_config_lock; EvAcquire 1 edit_partitions_lock;
        EvCreate 1 Scenario.parent 45 Scenario.INT4OID;
        EvRelease 1 load_config_lock; EvRelease 1 edit_partitions_lock]
  /\ (ranges <$> (catalog (fst r) !! Scenario.parent))
     = Some (Scenario.entries ++ [mkRangeEntry 16388 45 46;
                                  mkRangeEntry 16389 45 46]).
Proof.
  vm_compute. repeat split; reflexivity.
Qed.

(** * Further properties of the range routines *)

(** ** Range by partition oid *)

Section PartOidFacts.

Context {ddl : PartitionCreator}.

(** The scan of [get_range_by_part_oid] from index [i] over [n] entries
    answers the bounds of the first of them that carries the oid. *)
Lemma run_range_by_part_oid_loop backend w rs child (n i : nat) :
  (i + n <= length rs)%nat ->
  run backend w (range_by_part_oid_loop rs child (Z.of_nat i) n) =
  match List.find (fun re => child_oid re =? child) (take n (drop i rs)) with
  | Some re => (w, Returns (min re, max re))
  | None => (w, Raises NoSuchPartition)
  end.
Proof.
  revert i. induction n as [| n IH]; intros i Hlen; simpl.
  - reflexivity.
  - destruct (lookup_lt_is_Some_2 rs i) as [re Hre]; [lia |].
    rewrite run_bind, (run_array_get rs i re) by exact Hre.
    rewrite (drop_S rs re i Hre). simpl.
    destruct (child_oid re =? child); [reflexivity |].
    replace (Z.of_nat i + 1) with (Z.of_nat (S i)) by lia.
    apply IH. lia.
Qed.

Lemma run_get_range_by_part_oid backend w parent_oid prel child :
  catalog w !! parent_oid = Some prel ->
  parttype prel = PT_RANGE ->
  run backend w (get_range_by_part_oid parent_oid child) =
  match List.find (fun re => child_oid re =? child) (ranges prel) with
  | Some re => (w, Returns (min re, max re))
  | None => (w, Raises NoSuchPartition)
  end.
Proof.
  intros Hprel Hrange. unfold get_range_by_part_oid. simpl. rewrite Hprel.
  unfold PrelChildrenCount, PrelGetRangesArray. rewrite Hrange, Nat2Z.id.
  change 0 with (Z.of_nat 0).
  rewrite (run_range_by_part_oid_loop backend w (ranges prel) child
             (length (ranges prel)) 0) by lia.
  rewrite drop_0, firstn_all. reflexivity.
Qed.

End PartOidFacts.

(** With pairwise distinct oids, the first entry that carries the oid of the
    entry at index [i] is that entry. *)
Lemma find_by_oid_at_index (rs : list RangeEntry) (i : nat) (re : RangeEntry) :
  NoDup (map child_oid rs) ->
  rs !! i = Some re ->
  List.find (fun r => child_oid r =? child_oid re) rs = Some re.
Proof.
  revert i. induction rs as [| r rest IH]; intros i Hnd Hi.
  - discriminate.
  - simpl in Hnd. apply NoDup_cons in Hnd. destruct Hnd as [Hnotin Hnd].
    destruct i as [| i]; simpl in Hi |- *.
    + injection Hi as ->. rewrite Z.eqb_refl. reflexivity.
    + destruct (Z.eqb_spec (child_oid r) (child_oid re)) as [Heq | _].
      * exfalso. apply Hnotin. rewrite Heq.
        apply list_elem_of_fmap. exists re. split; [reflexivity |].
        apply list_elem_of_lookup. exists i. exact Hi.
      * exact (IH i Hnd Hi).
Qed.

(** X1.  On a RANGE relation [get_range_by_part_oid] either returns the
    bounds of an entry that carries the requested oid, or no entry carries it
    and the call fails with the no-such-partition failure; in both cases the
    shared state is untouched. *)
Theorem range_by_part_oid_found_or_missing
    (ddl : PartitionCreator) (backend : nat) (w : World)
    (parent_oid child : Oid) (prel : PartRelationInfo) :
  catalog w !! parent_oid = Some prel ->
  parttype prel = PT_RANGE ->
  (exists re, In re (ranges prel) /\ child_oid re = child
     /\ run backend w (get_range_by_part_oid parent_oid child)
        = (w, Returns (min re, max re)))
  \/ ((forall re, In re (ranges prel) -> child_oid re <> child)
      /\ run backend w (get_range_by_part_oid parent_oid child)
         = (w, Raises NoSuchPartition)).
Proof.
  intros Hprel Hrange.
  rewrite (run_get_range_by_part_oid backend w parent_oid prel child Hprel
             Hrange).
  destruct (List.find (fun re => child_oid re =? child) (ranges prel))
    as [re |] eqn:Hfind.
  - left. exists re. apply List.find_some in Hfind.
    destruct Hfind as [Hin Hoid].
    apply Z.eqb_eq in Hoid. repeat split; assumption.
  - right. split; [| reflexivity].
    intros re Hin Hoid.
    pose proof (List.find_none _ _ Hfind re Hin) as Hne. simpl in Hne.
    apply Z.eqb_neq in Hne. contradiction.
Qed.

Lemma range_by_part_oid_found_or_missing_witness :
  (exists re, In re (ranges Scenario.descriptor) /\ child_oid re = 16386
     /\ run (ddl := Scenario.failing) 0 Scenario.world0
          (get_range_by_part_oid Scenario.parent 16386)
        = (Scenario.world0, Returns (min re, max re)))
  \/ ((forall re, In re (ranges Scenario.descriptor) -> child_oid re <> 16386)
      /\ run (ddl := Scenario.failing) 0 Scenario.world0
           (get_range_by_part_oid Scenario.parent 16386)
         = (Scenario.world0, Raises NoSuchPartition)).
Proof.
  apply (range_by_part_oid_found_or_missing Scenario.failing 0%nat
           Scenario.world0 Scenario.parent 16386 Scenario.descriptor);
    reflexivity.
Defined.

(** X2.  On a RANGE relation whose partitions have pairwise distinct oids,
    looking an index up and then looking up the oid found there give the same
    bounds: [get_range_by_idx] at a valid index [idx >= 0] and
    [get_range_by_part_oid] at the oid of that entry agree. *)
Theorem range_by_idx_then_by_part_oid
    (ddl : PartitionCreator) (backend : nat) (w : World)
    (parent_oid : Oid) (prel : PartRelationInfo) (idx : Z) (re : RangeEntry) :
  catalog w !! parent_oid = Some prel ->
  parttype prel = PT_RANGE ->
  PrelChildrenCount prel < 2 ^ 31 ->
  NoDup (map child_oid (ranges prel)) ->
  0 <= idx ->
  ranges prel !! Z.to_nat idx = Some re ->
  run backend w (get_range_by_idx parent_oid idx)
    = (w, Returns (min re, max re))
  /\ run backend w (get_range_by_part_oid parent_oid (child_oid re))
    = (w, Returns (min re, max re)).
Proof.
  intros Hprel Hrange Hcount Hnd Hidx Hre.
  pose proof (lookup_lt_Some _ _ _ Hre) as Hlt.
  assert (Hc : PrelChildrenCount prel = Z.of_nat (length (ranges prel)))
    by (unfold PrelChildrenCount; rewrite Hrange; reflexivity).
  split.
  - rewrite (get_range_by_idx_cases ddl backend w parent_oid prel idx Hprel
               Hrange Hcount) by lia.
    destruct (Z.geb_spec (Z.abs idx) (PrelChildrenCount prel)) as [Hbig | _];
      [lia |].
    destruct (Z.ltb_spec idx (-1)) as [Hneg | _]; [lia |].
    destruct (Z.eqb_spec idx (-1)) as [Hm | _]; [lia |].
    rewrite Hre. reflexivity.
  - rewrite (run_get_range_by_part_oid backend w parent_oid prel _ Hprel
               Hrange).
    rewrite (find_by_oid_at_index (ranges prel) (Z.to_nat idx) re Hnd Hre).
    reflexivity.
Qed.

Lemma scenario_oids_distinct : NoDup (map child_oid Scenario.entries).
Proof.
  change (NoDup [16385; 16386; 16387]).
  apply (bool_decide_unpack _). vm_compute. exact I.
Qed.

Lemma range_by_idx_then_by_part_oid_witness :
  run (ddl := Scenario.failing) 0 Scenario.world0
      (get_range_by_idx Scenario.parent 2)
    = (Scenario.world0, Returns (30, 40))
  /\ run (ddl := Scenario.failing) 0 Scenario.world0
      (get_range_by_part_oid Scenario.parent 16387)
    = (Scenario.world0, Returns (30, 40)).
Proof.
  apply (range_by_idx_then_by_part_oid Scenario.failing 0%nat Scenario.world0
           Scenario.parent Scenario.descriptor 2 (mkRangeEntry 16387 30 40)).
  - reflexivity.
  - reflexivity.
  - vm_compute. reflexivity.
  - exact scenario_oids_distinct.
  - lia.
  - reflexivity.
Defined.

(** ** Range by index, and the global bounds *)

Lemma children_count_of_range (prel : PartRelationInfo) :
  parttype prel = PT_RANGE ->
  PrelChildrenCount prel = Z.of_nat (length (ranges prel)).
Proof.
  intros Hrange. unfold PrelChildrenCount. rewrite Hrange. reflexivity.
Qed.

Section GlobalBoundsFacts.

Context {ddl : PartitionCreator}.
Variables (backend : nat) (w : World) (parent_oid : Oid)
          (prel : PartRelationInfo).
Hypothesis Hprel : catalog w !! parent_oid = Some prel.
Hypothesis Hrange : parttype prel = PT_RANGE.

Lemma run_get_min_range_value first :
  ranges prel !! 0%nat = Some first ->
  run backend w (get_min_range_value parent_oid) = (w, Returns (min first)).
Proof using Hprel Hrange.
  intros Hfirst. unfold get_min_range_value. simpl. rewrite Hprel.
  unfold check_range_strategy, PrelGetRangesArray. rewrite Hrange. simpl.
  rewrite run_bind. change 0 with (Z.of_nat 0).
  rewrite (run_array_get _ _ first) by exact Hfirst. reflexivity.
Qed.

Lemma run_get_max_range_value final :
  PrelChildrenCount prel < 2 ^ 32 ->
  ranges prel !! pred (length (ranges prel)) = Some final ->
  run backend w (get_max_range_value parent_oid) = (w, Returns (max final)).
Proof using Hprel Hrange.
  intros Hcount Hfinal. pose proof (lookup_lt_Some _ _ _ Hfinal) as Hlt.
  rewrite (children_count_of_range prel Hrange) in Hcount.
  unfold get_max_range_value. simpl. rewrite Hprel.
  unfold check_range_strategy, PrelGetRangesArray. rewrite Hrange. simpl.
  rewrite run_bind, (children_count_of_range prel Hrange).
  replace (uint32 (Z.of_nat (length (ranges prel)) - 1))
    with (Z.of_nat (pred (length (ranges prel))))
    by (rewrite uint32_id by lia; lia).
  rewrite (run_array_get _ _ final) by exact Hfinal. reflexivity.
Qed.

End GlobalBoundsFacts.

(** X3.  On a RANGE relation [get_range_by_idx] never reads outside the range
    array.  It returns the bounds of an entry of the relation exactly when the
    index is a valid non-negative index, or is -1 and the relation has at
    least two partitions; for every other index it fails, with the
    partition-does-not-exist failure when the magnitude of the index reaches
    the child count and with the negative-index failure otherwise. *)
Theorem range_by_idx_returns_iff
    (ddl : PartitionCreator) (backend : nat) (w : World)
    (parent_oid : Oid) (prel : PartRelationInfo) (idx : Z) :
  catalog w !! parent_oid = Some prel ->
  parttype prel = PT_RANGE ->
  PrelChildrenCount prel < 2 ^ 31 ->
  - 2 ^ 31 <= idx < 2 ^ 31 ->
  let served :=
    0 <= idx < PrelChildrenCount prel
    \/ (idx = -1 /\ 2 <= PrelChildrenCount prel) in
  (served ->
     exists re, In re (ranges prel)
       /\ run backend w (get_range_by_idx parent_oid idx)
          = (w, Returns (min re, max re)))
  /\ (~ served ->
     run backend w (get_range_by_idx parent_oid idx)
     = (w, Raises (if Z.abs idx >=? PrelChildrenCount prel
                   then PartitionNotFound else InvalidIndex))).
Proof.
  intros Hprel Hrange Hcount Hidx served.
  rewrite (get_range_by_idx_cases ddl backend w parent_oid prel idx Hprel
             Hrange Hcount Hidx).
  pose proof (children_count_of_range prel Hrange) as Hc.
  unfold served. split.
  - intros Hserved.
    destruct (Z.geb_spec (Z.abs idx) (PrelChildrenCount prel)) as [Hbig | _];
      [lia |].
    destruct (Z.ltb_spec idx (-1)) as [Hneg | _]; [lia |].
    destruct (lookup_lt_is_Some_2 (ranges prel)
                (Z.to_nat (if idx =? -1 then PrelChildrenCount prel - 1
                           else idx))) as [re Hre].
    { destruct (Z.eqb_spec idx (-1)); lia. }
    rewrite Hre. exists re. split; [| reflexivity].
    apply list_elem_of_In, list_elem_of_lookup. eexists. exact Hre.
  - intros Hnot.
    destruct (Z.geb_spec (Z.abs idx) (PrelChildrenCount prel)) as [_ | Hsmall];
      [reflexivity |].
    destruct (Z.ltb_spec idx (-1)) as [_ | Hge]; [reflexivity |].
    exfalso. apply Hnot.
    destruct (Z.eq_dec idx (-1)) as [-> | Hne]; [right | left]; lia.
Qed.

Lemma range_by_idx_returns_iff_witness :
  let served := 0 <= 1 < 3 \/ (1 = -1 /\ 2 <= 3) in
  (served ->
     exists re, In re (ranges Scenario.descriptor)
       /\ run (ddl := Scenario.failing) 0 Scenario.world0
            (get_range_by_idx Scenario.parent 1)
          = (Scenario.world0, Returns (min re, max re)))
  /\ (~ served ->
     run (ddl := Scenario.failing) 0 Scenario.world0
       (get_range_by_idx Scenario.parent 1)
     = (Scenario.world0, Raises InvalidIndex)).
Proof.
  apply (range_by_idx_returns_iff Scenario.failing 0%nat Scenario.world0
           Scenario.parent Scenario.descriptor 1).
  - reflexivity.
  - reflexivity.
  - vm_compute. reflexivity.
  - lia.
Defined.

(** X4.  On a RANGE relation with at least two partitions, index -1 and index
    [child_count - 1] give the same answer, the bounds of the last
    partition. *)
Theorem range_by_idx_minus_one_is_last
    (ddl : PartitionCreator) (backend : nat) (w : World)
    (parent_oid : Oid) (prel : PartRelationInfo) :
  catalog w !! parent_oid = Some prel ->
  parttype prel = PT_RANGE ->
  2 <= PrelChildrenCount prel < 2 ^ 31 ->
  exists final,
    last (ranges prel) = Some final
    /\ run backend w (get_range_by_idx parent_oid (-1))
       = (w, Returns (min final, max final))
    /\ run backend w (get_range_by_idx parent_oid (PrelChildrenCount prel - 1))
       = (w, Returns (min final, max final)).
Proof.
  intros Hprel Hrange Hcount.
  pose proof (children_count_of_range prel Hrange) as Hc.
  destruct (lookup_lt_is_Some_2 (ranges prel) (pred (length (ranges prel))))
    as [final Hfinal]; [lia |].
  exists final. split; [rewrite last_lookup; exact Hfinal |].
  assert (Hpos : Z.to_nat (PrelChildrenCount prel - 1)
                 = pred (length (ranges prel))) by lia.
  split.
  - rewrite (get_range_by_idx_cases ddl backend w parent_oid prel (-1) Hprel
               Hrange) by lia.
    destruct (Z.geb_spec (Z.abs (-1)) (PrelChildrenCount prel)) as [Hbig | _];
      [simpl in Hbig; lia |].
    simpl. rewrite Hpos, Hfinal. reflexivity.
  - rewrite (get_range_by_idx_cases ddl backend w parent_oid prel
               (PrelChildrenCount prel - 1) Hprel Hrange) by lia.
    destruct (Z.geb_spec (Z.abs (PrelChildrenCount prel - 1))
                (PrelChildrenCount prel)) as [Hbig | _]; [lia |].
    destruct (Z.ltb_spec (PrelChildrenCount prel - 1) (-1)) as [Hneg | _];
      [lia |].
    destruct (Z.eqb_spec (PrelChildrenCount prel - 1) (-1)) as [Hm | _];
      [lia |].
    rewrite Hpos, Hfinal. reflexivity.
Qed.

Lemma range_by_idx_minus_one_is_last_witness :
  exists final,
    last (ranges Scenario.descriptor) = Some final
    /\ run (ddl := Scenario.failing) 0 Scenario.world0
         (get_range_by_idx Scenario.parent (-1))
       = (Scenario.world0, Returns (min final, max final))
    /\ run (ddl := Scenario.failing) 0 Scenario.world0
         (get_range_by_idx Scenario.parent
            (PrelChildrenCount Scenario.descriptor - 1))
       = (Scenario.world0, Returns (min final, max final)).
Proof.
  apply (range_by_idx_minus_one_is_last Scenario.failing 0%nat Scenario.world0
           Scenario.parent Scenario.descriptor).
  - reflexivity.
  - reflexivity.
  - vm_compute. split; [discriminate | reflexivity].
Defined.

(** X5.  On a RANGE relation with at least one partition the global bounds
    are the outer bounds of the indexed entries: [get_min_range_value] is the
    first component of [get_range_by_idx] at index 0 and
    [get_max_range_value] is the second component of [get_range_by_idx] at
    index [child_count - 1]. *)
Theorem global_bounds_are_outer_indexed_bounds
    (ddl : PartitionCreator) (backend : nat) (w : World)
    (parent_oid : Oid) (prel : PartRelationInfo) :
  catalog w !! parent_oid = Some prel ->
  parttype prel = PT_RANGE ->
  1 <= PrelChildrenCount prel < 2 ^ 31 ->
  exists lo lo_max hi_min hi,
    run backend w (get_range_by_idx parent_oid 0) = (w, Returns (lo, lo_max))
    /\ run backend w (get_min_range_value parent_oid) = (w, Returns lo)
    /\ run backend w (get_range_by_idx parent_oid (PrelChildrenCount prel - 1))
       = (w, Returns (hi_min, hi))
    /\ run backend w (get_max_range_value parent_oid) = (w, Returns hi).
Proof.
  intros Hprel Hrange Hcount.
  pose proof (children_count_of_range prel Hrange) as Hc.
  destruct (lookup_lt_is_Some_2 (ranges prel) 0) as [first Hfirst]; [lia |].
  destruct (lookup_lt_is_Some_2 (ranges prel) (pred (length (ranges prel))))
    as [final Hfinal]; [lia |].
  exists (min first), (max first), (min final), (max final).
  assert (Hpos : Z.to_nat (PrelChildrenCount prel - 1)
                 = pred (length (ranges prel))) by lia.
  repeat split.
  - rewrite (get_range_by_idx_cases ddl backend w parent_oid prel 0 Hprel
               Hrange) by lia.
    destruct (Z.geb_spec (Z.abs 0) (PrelChildrenCount prel)) as [Hbig | _];
      [simpl in Hbig; lia |].
    simpl. change (Z.to_nat 0) with 0%nat. rewrite Hfirst. reflexivity.
  - exact (run_get_min_range_value backend w parent_oid prel Hprel Hrange
             first Hfirst).
  - rewrite (get_range_by_idx_cases ddl backend w parent_oid prel
               (PrelChildrenCount prel - 1) Hprel Hrange) by lia.
    destruct (Z.geb_spec (Z.abs (PrelChildrenCount prel - 1))
                (PrelChildrenCount prel)) as [Hbig | _]; [lia |].
    destruct (Z.ltb_spec (PrelChildrenCount prel - 1) (-1)) as [Hneg | _];
      [lia |].
    destruct (Z.eqb_spec (PrelChildrenCount prel - 1) (-1)) as [Hm | _];
      [lia |].
    rewrite Hpos, Hfinal. reflexivity.
  - apply (run_get_max_range_value backend w parent_oid prel Hprel Hrange
             final); [lia | exact Hfinal].
Qed.

Lemma global_bounds_are_outer_indexed_bounds_witness :
  exists lo lo_max hi_min hi,
    run (ddl := Scenario.failing) 0 Scenario.world0
        (get_range_by_idx Scenario.lonely 0)
      = (Scenario.world0, Returns (lo, lo_max))
    /\ run (ddl := Scenario.failing) 0 Scenario.world0
        (get_min_range_value Scenario.lonely) = (Scenario.world0, Returns lo)
    /\ run (ddl := Scenario.failing) 0 Scenario.world0
        (get_range_by_idx Scenario.lonely
           (PrelChildrenCount Scenario.lonely_descriptor - 1))
      = (Scenario.world0, Returns (hi_min, hi))
    /\ run (ddl := Scenario.failing) 0 Scenario.world0
        (get_max_range_value Scenario.lonely) = (Scenario.world0, Returns hi).
Proof.
  apply (global_bounds_are_outer_indexed_bounds Scenario.failing 0%nat
           Scenario.world0 Scenario.lonely Scenario.lonely_descriptor).
  - reflexivity.
  - reflexivity.
  - vm_compute. split; [discriminate | reflexivity].
Defined.

(** ** Overlap check on sorted ranges *)

Lemma btint4cmp_consistent_le (value : Datum) :
  cmp_consistent_le Scenario.btint4cmp Scenario.btint4cmp value.
Proof.
  intros a b. unfold Scenario.btint4cmp.
  destruct (Z.compare_spec a b), (Z.compare_spec value a),
    (Z.compare_spec value b); lia.
Qed.

(** What [check_overlap] answers on a RANGE relation. *)
Lemma run_check_overlap
    (types : TypeSystem) (ddl : PartitionCreator) (backend : nat) (w : World)
    (parent_oid : Oid) (prel : PartRelationInfo) (p1 p2 : Datum)
    (p1_type p2_type : Oid) :
  catalog w !! parent_oid = Some prel ->
  parttype prel = PT_RANGE ->
  run backend w (check_overlap parent_oid p1 p2 p1_type p2_type)
  = (w, Returns (existsb
                   (overlaps_entry
                      (fill_type_cmp_fmgr_info p1_type (atttype prel))
                      (fill_type_cmp_fmgr_info p2_type (atttype prel)) p1 p2)
                   (ranges prel))).
Proof.
  intros Hprel Hrange. unfold check_overlap. simpl. rewrite Hprel. simpl.
  unfold check_range_strategy, PrelChildrenCount, PrelGetRangesArray.
  rewrite Hrange. simpl. rewrite Nat2Z.id. change 0 with (Z.of_nat 0).
  rewrite (run_check_overlap_loop _ _ p1 p2 backend w (ranges prel)
             (length (ranges prel)) 0) by lia.
  rewrite drop_0, firstn_all. reflexivity.
Qed.

Section NoOverlapFacts.

Variables (cmp_func_1 cmp_func_2 cmp_att : Datum -> Datum -> Z)
          (p1 p2 : Datum) (rs : list RangeEntry).
Hypothesis Hsorted : ranges_sorted cmp_att rs = true.

(** From an entry whose [min] the value does not exceed, upwards: the value
    exceeds the [min] of no later entry. *)
Lemma at_most_later (i : nat) upper :
  cmp_consistent_le cmp_func_2 cmp_att p2 ->
  rs !! i = Some upper ->
  cmp_func_2 p2 (min upper) <= 0 ->
  forall (k : nat) re, rs !! (i + k)%nat = Some re ->
    cmp_func_2 p2 (min re) <= 0.
Proof using Hsorted.
  intros Hcons Hi Hmin.
  induction k as [| k IH]; intros re Hj.
  - rewrite Nat.add_0_r, Hi in Hj. injection Hj as <-. exact Hmin.
  - destruct (lookup_lt_is_Some_2 rs (i + k)) as [prev Hprev].
    { pose proof (lookup_lt_Some rs _ re Hj). lia. }
    pose proof (IH prev Hprev) as Hpmin.
    replace (i + S k)%nat with (S (i + k)) in Hj by lia.
    pose proof (ranges_sorted_min_max cmp_att rs _ prev Hsorted Hprev) as Hmm.
    pose proof (ranges_sorted_adjacent cmp_att rs _ prev re Hsorted Hprev Hj)
      as Hadj.
    apply (Hcons (max prev) (min re) Hadj).
    apply (Hcons (min prev) (max prev)); [lia | exact Hpmin].
Qed.

(** No entry passes the test of [check_overlap] when the probe starts at or
    after the [max] of every entry before position [g] and ends at or before
    the [min] of every entry from [g] on. *)
Lemma no_entry_overlaps (g : nat) :
  (forall (j : nat) re, (j < g)%nat -> rs !! j = Some re ->
     0 <= cmp_func_1 p1 (max re)) ->
  (forall (j : nat) re, (g <= j)%nat -> rs !! j = Some re ->
     cmp_func_2 p2 (min re) <= 0) ->
  existsb (overlaps_entry cmp_func_1 cmp_func_2 p1 p2) rs = false.
Proof.
  intros Hlow Hhigh.
  destruct (existsb (overlaps_entry cmp_func_1 cmp_func_2 p1 p2) rs)
    eqn:Hex; [| reflexivity].
  apply existsb_exists in Hex. destruct Hex as [re [Hin Htest]].
  apply list_elem_of_In, list_elem_of_lookup in Hin. destruct Hin as [j Hj].
  unfold overlaps_entry, FunctionCall2 in Htest.
  apply andb_true_iff in Htest. destruct Htest as [H1 H2].
  apply Z.ltb_lt in H1. apply Z.gtb_gt in H2.
  destruct (Nat.lt_ge_cases j g) as [Hbefore | Hafter].
  - pose proof (Hlow j re Hbefore Hj). lia.
  - pose proof (Hhigh j re Hafter Hj). lia.
Qed.

End NoOverlapFacts.

(** X6.  On a RANGE relation with sorted ranges, a probe whose lower bound is
    not below the [max] of the last range (the global maximum) overlaps
    nothing, whatever its upper bound: [check_overlap] answers false. *)
Theorem check_overlap_false_after_last
    (types : TypeSystem) (ddl : PartitionCreator) (backend : nat) (w : World)
    (parent_oid : Oid) (prel : PartRelationInfo) (p1 p2 : Datum)
    (p1_type p2_type : Oid) (final : RangeEntry) :
  catalog w !! parent_oid = Some prel ->
  parttype prel = PT_RANGE ->
  ranges_sorted (fill_type_cmp_fmgr_info (atttype prel) (atttype prel))
    (ranges prel) = true ->
  cmp_consistent (fill_type_cmp_fmgr_info p1_type (atttype prel))
    (fill_type_cmp_fmgr_info (atttype prel) (atttype prel)) p1 ->
  last (ranges prel) = Some final ->
  0 <= fill_type_cmp_fmgr_info p1_type (atttype prel) p1 (max final) ->
  run backend w (check_overlap parent_oid p1 p2 p1_type p2_type)
    = (w, Returns false).
Proof.
  intros Hprel Hrange Hsorted Hcons Hlast Hmax.
  rewrite (run_check_overlap types ddl backend w parent_oid prel p1 p2 p1_type
             p2_type Hprel Hrange).
  rewrite last_lookup in Hlast.
  pose proof (lookup_lt_Some _ _ _ Hlast) as Hlt.
  rewrite (no_entry_overlaps _ _ p1 p2 (ranges prel) (length (ranges prel)));
    [reflexivity | |].
  - intros j re Hj Hre.
    apply (not_below_earlier _ _ p1 (ranges prel) Hsorted Hcons
             (pred (length (ranges prel))) final Hlast Hmax
             (pred (length (ranges prel)) - j) j re); [lia | exact Hre].
  - intros j re Hj Hre. pose proof (lookup_lt_Some _ _ _ Hre). lia.
Qed.

Lemma check_overlap_false_after_last_witness :
  run (ddl := Scenario.failing) 0 Scenario.world0
      (check_overlap (types := Scenario.int4_types) Scenario.parent 40 50
         Scenario.INT4OID Scenario.INT4OID)
    = (Scenario.world0, Returns false).
Proof.
  apply (check_overlap_false_after_last Scenario.int4_types Scenario.failing
           0%nat Scenario.world0 Scenario.parent Scenario.descriptor 40 50
           Scenario.INT4OID Scenario.INT4OID (mkRangeEntry 16387 30 40)).
  - reflexivity.
  - reflexivity.
  - reflexivity.
  - apply btint4cmp_consistent.
  - reflexivity.
  - vm_compute. discriminate.
Defined.

(** X7.  On a RANGE relation with sorted ranges, a probe whose upper bound
    does not exceed the [min] of the first range (the global minimum) overlaps
    nothing, whatever its lower bound: [check_overlap] answers false. *)
Theorem check_overlap_false_before_first
    (types : TypeSystem) (ddl : PartitionCreator) (backend : nat) (w : World)
    (parent_oid : Oid) (prel : PartRelationInfo) (p1 p2 : Datum)
    (p1_type p2_type : Oid) (first : RangeEntry) :
  catalog w !! parent_oid = Some prel ->
  parttype prel = PT_RANGE ->
  ranges_sorted (fill_type_cmp_fmgr_info (atttype prel) (atttype prel))
    (ranges prel) = true ->
  cmp_consistent_le (fill_type_cmp_fmgr_info p2_type (atttype prel))
    (fill_type_cmp_fmgr_info (atttype prel) (atttype prel)) p2 ->
  head (ranges prel) = Some first ->
  fill_type_cmp_fmgr_info p2_type (atttype prel) p2 (min first) <= 0 ->
  run backend w (check_overlap parent_oid p1 p2 p1_type p2_type)
    = (w, Returns false).
Proof.
  intros Hprel Hrange Hsorted Hcons Hhead Hmin.
  rewrite (run_check_overlap types ddl backend w parent_oid prel p1 p2 p1_type
             p2_type Hprel Hrange).
  rewrite head_lookup in Hhead.
  rewrite (no_entry_overlaps _ _ p1 p2 (ranges prel) 0);
    [reflexivity | |].
  - intros j re Hj. lia.
  - intros j re _ Hre.
    exact (at_most_later _ _ p2 (ranges prel) Hsorted 0 first Hcons Hhead Hmin
             j re Hre).
Qed.

Lemma check_overlap_false_before_first_witness :
  run (ddl := Scenario.failing) 0 Scenario.world0
      (check_overlap (types := Scenario.int4_types) Scenario.parent (-10) 0
         Scenario.INT4OID Scenario.INT4OID)
    = (Scenario.world0, Returns false).
Proof.
  apply (check_overlap_false_before_first Scenario.int4_types Scenario.failing
           0%nat Scenario.world0 Scenario.parent Scenario.descriptor (-10) 0
           Scenario.INT4OID Scenario.INT4OID (mkRangeEntry 16385 0 10)).
  - reflexivity.
  - reflexivity.
  - reflexivity.
  - apply btint4cmp_consistent_le.
  - reflexivity.
  - vm_compute. discriminate.
Defined.

(** X8.  On a RANGE relation with sorted ranges, a probe that lies within the
    gap between two neighbouring ranges (it starts at or after the [max] of
    entry [i] and ends at or before the [min] of entry [i + 1]) overlaps
    nothing: [check_overlap] answers false. *)
Theorem check_overlap_false_within_gap
    (types : TypeSystem) (ddl : PartitionCreator) (backend : nat) (w : World)
    (parent_oid : Oid) (prel : PartRelationInfo) (p1 p2 : Datum)
    (p1_type p2_type : Oid) (i : nat) (lower upper : RangeEntry) :
  catalog w !! parent_oid = Some prel ->
  parttype prel = PT_RANGE ->
  ranges_sorted (fill_type_cmp_fmgr_info (atttype prel) (atttype prel))
    (ranges prel) = true ->
  cmp_consistent (fill_type_cmp_fmgr_info p1_type (atttype prel))
    (fill_type_cmp_fmgr_info (atttype prel) (atttype prel)) p1 ->
  cmp_consistent_le (fill_type_cmp_fmgr_info p2_type (atttype prel))
    (fill_type_cmp_fmgr_info (atttype prel) (atttype prel)) p2 ->
  ranges prel !! i = Some lower ->
  ranges prel !! S i = Some upper ->
  0 <= fill_type_cmp_fmgr_info p1_type (atttype prel) p1 (max lower) ->
  fill_type_cmp_fmgr_info p2_type (atttype prel) p2 (min upper) <= 0 ->
  run backend w (check_overlap parent_oid p1 p2 p1_type p2_type)
    = (w, Returns false).
Proof.
  intros Hprel Hrange Hsorted Hcons1 Hcons2 Hi HSi Hmax Hmin.
  rewrite (run_check_overlap types ddl backend w parent_oid prel p1 p2 p1_type
             p2_type Hprel Hrange).
  rewrite (no_entry_overlaps _ _ p1 p2 (ranges prel) (S i));
    [reflexivity | |].
  - intros j re Hj Hre.
    apply (not_below_earlier _ _ p1 (ranges prel) Hsorted Hcons1 i lower Hi
             Hmax (i - j) j re); [lia | exact Hre].
  - intros j re Hj Hre.
    apply (at_most_later _ _ p2 (ranges prel) Hsorted (S i) upper Hcons2 HSi
             Hmin (j - S i) re).
    replace (S i + (j - S i))%nat with j by lia. exact Hre.
Qed.

Lemma check_overlap_false_within_gap_witness :
  run (ddl := Scenario.failing) 0 Scenario.world0
      (check_overlap (types := Scenario.int4_types) Scenario.parent 22 28
         Scenario.INT4OID Scenario.INT4OID)
    = (Scenario.world0, Returns false).
Proof.
  apply (check_overlap_false_within_gap Scenario.int4_types Scenario.failing
           0%nat Scenario.world0 Scenario.parent Scenario.descriptor 22 28
           Scenario.INT4OID Scenario.INT4OID 1%nat
           (mkRangeEntry 16386 10 20) (mkRangeEntry 16387 30 40)).
  - reflexivity.
  - reflexivity.
  - reflexivity.
  - apply btint4cmp_consistent.
  - apply btint4cmp_consistent_le.
  - reflexivity.
  - reflexivity.
  - vm_compute. discriminate.
  - vm_compute. discriminate.
Defined.

(** ** The strategy test *)

Section NoRaiseFacts.

Context {ddl : PartitionCreator}.



End NoRaiseFacts.



(** X10.  None of the range routines stops at a HASH relation.  On a HASH
    relation with at least one partition and an empty range array,
    [get_range_by_idx] at index 0, [get_range_by_part_oid],
    [get_min_range_value], [get_max_range_value] and [check_overlap] all read
    outside the range array instead of raising a failure. *)
Theorem range_routines_fault_on_hash_relation
    (types : TypeSystem) (ddl : PartitionCreator) (backend : nat) (w : World)
    (parent_oid child : Oid) (prel : PartRelationInfo) (p1 p2 : Datum)
    (p1_type p2_type : Oid) :
  catalog w !! parent_oid = Some prel ->
  parttype prel = PT_HASH ->
  ranges prel = [] ->
  0 < hash_partitions prel < 2 ^ 31 ->
  run backend w (get_range_by_idx parent_oid 0) = (w, Faults)
  /\ run backend w (get_range_by_part_oid parent_oid child) = (w, Faults)
  /\ run backend w (get_min_range_value parent_oid) = (w, Faults)
  /\ run backend w (get_max_range_value parent_oid) = (w, Faults)
  /\ run backend w (check_overlap parent_oid p1 p2 p1_type p2_type)
     = (w, Faults).
Proof.
  intros Hprel Hhash Hnone Hcount.
  assert (Hc : PrelChildrenCount prel = hash_partitions prel)
    by (unfold PrelChildrenCount; rewrite Hhash; reflexivity).
  assert (Hloop : exists n, Z.to_nat (PrelChildrenCount prel) = S n).
  { exists (pred (Z.to_nat (PrelChildrenCount prel))). lia. }
  destruct Hloop as [n Hn].
  unfold get_range_by_idx, get_range_by_part_oid, get_min_range_value,
    get_max_range_value, check_overlap, check_range_strategy,
    PrelGetRangesArray.
  simpl. rewrite Hprel, Hhash, Hnone, Hn. simpl.
  repeat split.
  - rewrite uint32_id by lia.
    destruct (Z.geb_spec (Z.abs 0) (PrelChildrenCount prel)) as [Hbig | _];
      [lia | reflexivity].
  - pose proof (Z.mod_pos_bound (PrelChildrenCount prel - 1) (2 ^ 32)
                  ltac:(lia)) as Hm.
    rewrite run_bind, run_array_get_outside by (unfold uint32; simpl; lia).
    reflexivity.
Qed.

Lemma range_routines_fault_on_hash_relation_witness :
  run (ddl := Scenario.failing) 0 Busy.hash_world
      (get_range_by_idx Busy.hashed 0) = (Busy.hash_world, Faults)
  /\ run (ddl := Scenario.failing) 0 Busy.hash_world
       (get_range_by_part_oid Busy.hashed 16601) = (Busy.hash_world, Faults)
  /\ run (ddl := Scenario.failing) 0 Busy.hash_world
       (get_min_range_value Busy.hashed) = (Busy.hash_world, Faults)
  /\ run (ddl := Scenario.failing) 0 Busy.hash_world
       (get_max_range_value Busy.hashed) = (Busy.hash_world, Faults)
  /\ run (ddl := Scenario.failing) 0 Busy.hash_world
       (check_overlap (types := Scenario.int4_types) Busy.hashed 5 15
          Scenario.INT4OID Scenario.INT4OID) = (Busy.hash_world, Faults).
Proof.
  apply (range_routines_fault_on_hash_relation Scenario.int4_types
           Scenario.failing 0%nat Busy.hash_world Busy.hashed 16601
           Busy.hashed_descriptor 5 15 Scenario.INT4OID Scenario.INT4OID).
  - reflexivity.
  - reflexivity.
  - reflexivity.
  - vm_compute. split; reflexivity.
Defined.

(** ** Lookup with creation: locks and the collaborator *)

(** X11.  A lookup whose search finds an owner, or reports a gap, never
    waits: whoever holds the two locks, it returns at once (the owner's oid,
    or SQL NULL for a gap) and leaves the shared state untouched. *)
Theorem settled_lookup_never_waits
    (types : TypeSystem) (search : RangeSearch) (ddl : PartitionCreator)
    (backend : nat) (w : World)
    (parent_oid : Oid) (value : Datum) (value_type : Oid)
    (prel : PartRelationInfo) :
  catalog w !! parent_oid = Some prel ->
  search_range_partition_eq value
    (fill_type_cmp_fmgr_info value_type (atttype prel)) prel
    <> SEARCH_RANGEREL_OUT_OF_RANGE ->
  run backend w (find_or_create_range_partition parent_oid value value_type)
  = (w, Returns
          match search_range_partition_eq value
                  (fill_type_cmp_fmgr_info value_type (atttype prel)) prel with
          | SEARCH_RANGEREL_FOUND found_rentry => Some (child_oid found_rentry)
          | _ => None
          end).
Proof.
  intros Hprel Hsearch.
  unfold find_or_create_range_partition. simpl. rewrite Hprel.
  unfold find_or_create_body.
  destruct (search_range_partition_eq value
              (fill_type_cmp_fmgr_info value_type (atttype prel)) prel)
    as [| | found_rentry]; [contradiction | reflexivity | reflexivity].
Qed.

(** The value 15 has an owner; backend 7 holds both locks. *)
Lemma settled_lookup_never_waits_witness :
  run (ddl := Scenario.failing) 0 Busy.locked_world
      (find_or_create_range_partition (types := Scenario.int4_types)
                                      (search := find_owner_search)
         Scenario.parent 15 Scenario.INT4OID)
  = (Busy.locked_world, Returns (Some 16386)).
Proof.
  apply (settled_lookup_never_waits Scenario.int4_types find_owner_search
           Scenario.failing 0%nat Busy.locked_world Scenario.parent 15
           Scenario.INT4OID Scenario.descriptor).
  - reflexivity.
  - vm_compute. discriminate.
Defined.



(** X13.  Whatever the shared state, the search and the collaborator, one
    call of the lookup adds to the history one of four things: nothing; the
    acquisition of [load_config_lock] alone (it then waits for the other
    lock); both acquisitions and one creation call (the collaborator failed);
    or both acquisitions, one creation call and both releases.  So the
    collaborator is called at most once per call and only by a backend that
    has just taken both locks, in the order [load_config_lock],
    [edit_partitions_lock]; and the call never reads outside an array nor
    releases a lock it does not hold. *)
Theorem lookup_history_shapes
    (types : TypeSystem) (search : RangeSearch) (ddl : PartitionCreator)
    (backend : nat) (w : World)
    (parent_oid : Oid) (value : Datum) (value_type : Oid) :
  let r := run backend w
             (find_or_create_range_partition parent_oid value value_type) in
  let taken := [EvAcquire backend load_config_lock;
                EvAcquire backend edit_partitions_lock] in
  let created := [EvCreate backend parent_oid value value_type] in
  let released := [EvRelease backend load_config_lock;
                   EvRelease backend edit_partitions_lock] in
  (fst r = w
   /\ ((exists answer, snd r = Returns answer)
       \/ snd r = Blocks load_config_lock))
  \/ (trace (fst r) = trace w ++ [EvAcquire backend load_config_lock]
      /\ catalog (fst r) = catalog w
      /\ snd r = Blocks edit_partitions_lock)
  \/ (trace (fst r) = trace w ++ taken ++ created
      /\ catalog (fst r) = catalog w
      /\ exists e, snd r = Raises e)
  \/ (trace (fst r) = trace w ++ taken ++ created ++ released
      /\ exists child, snd r = Returns (Some child)).
Proof.
  intros r taken created released. subst r taken created released.
  unfold find_or_create_range_partition. simpl.
  destruct (catalog w !! parent_oid) as [prel |];
    [| left; split; [reflexivity | left; eexists; reflexivity]].
  destruct (search_range_partition_eq value
              (fill_type_cmp_fmgr_info value_type (atttype prel)) prel)
    as [| | found_rentry] eqn:Hsearch.
  2, 3: unfold find_or_create_body; rewrite Hsearch;
        left; split; [reflexivity | left; eexists; reflexivity].
  destruct (config_holder w) as [c |] eqn:Hc.
  { unfold find_or_create_body. rewrite Hsearch. simpl. rewrite Hc.
    left. split; [reflexivity | right; reflexivity]. }
  destruct (edit_holder w) as [h |] eqn:He.
  { unfold find_or_create_body. rewrite Hsearch. simpl. rewrite Hc. simpl.
    rewrite He. right. left. repeat split; reflexivity. }
  rewrite (run_body_out_of_range backend parent_oid value value_type w prel
             Hsearch (conj Hc He)).
  simpl.
  destruct (create_partitions_internal (catalog w) parent_oid value value_type)
    as [catalog' child | e]; simpl.
  - right. right. right. rewrite <- !app_assoc. simpl.
    split; [reflexivity |]. exists child. reflexivity.
  - right. right. left. repeat split; try reflexivity.
    exists e. reflexivity.
Qed.

(** X14.  Two calls one after the other.  When the first call creates the
    partition and the collaborator registered, for the value, an entry that
    the search finds in the now current descriptor under the oid it answered,
    a later call for the same value by any backend returns that same oid
    without touching the locks or the collaborator: the two calls together
    call the collaborator exactly once. *)
Theorem later_call_finds_created_partition
    (types : TypeSystem) (search : RangeSearch) (ddl : PartitionCreator)
    (first_backend later_backend : nat) (w : World)
    (parent_oid : Oid) (value : Datum) (value_type : Oid)
    (prel prel' : PartRelationInfo) (catalog' : gmap Z PartRelationInfo)
    (child : Oid) (owner : RangeEntry) :
  catalog w !! parent_oid = Some prel ->
  search_range_partition_eq value
    (fill_type_cmp_fmgr_info value_type (atttype prel)) prel
    = SEARCH_RANGEREL_OUT_OF_RANGE ->
  locks_free w ->
  create_partitions_internal (catalog w) parent_oid value value_type
    = DdlOk catalog' child ->
  catalog' !! parent_oid = Some prel' ->
  search_range_partition_eq value
    (fill_type_cmp_fmgr_info value_type (atttype prel')) prel'
    = SEARCH_RANGEREL_FOUND owner ->
  child_oid owner = child ->
  let lookup := find_or_create_range_partition parent_oid value value_type in
  let r1 := run first_backend w lookup in
  let r2 := run later_backend (fst r1) lookup in
  snd r1 = Returns (Some child)
  /\ snd r2 = Returns (Some child)
  /\ fst r2 = fst r1
  /\ create_calls (trace (fst r2)) = (create_calls (trace w) + 1)%nat.
Proof.
  intros Hprel Hsearch Hfree Hddl Hprel' Hsearch' Hchild lookup r1 r2.
  assert (Hr1 : r1 = (mkWorld catalog' None None
                        (trace w
                           ++ [EvAcquire first_backend load_config_lock;
                               EvAcquire first_backend edit_partitions_lock;
                               EvCreate first_backend parent_oid value
                                 value_type;
                               EvRelease first_backend load_config_lock;
                               EvRelease first_backend edit_partitions_lock]),
                      Returns (Some child))).
  { subst r1 lookup. unfold find_or_create_range_partition. simpl.
    rewrite Hprel.
    rewrite (run_body_out_of_range first_backend parent_oid value value_type
               w prel Hsearch Hfree).
    rewrite Hddl. simpl. rewrite <- app_assoc. reflexivity. }
  assert (Hr2 : r2 = (fst r1, Returns (Some child))).
  { subst r2 lookup. rewrite Hr1. simpl.
    unfold find_or_create_range_partition. simpl. rewrite Hprel'.
    unfold find_or_create_body. rewrite Hsearch', Hchild. reflexivity. }
  rewrite Hr2. simpl. rewrite Hr1. simpl.
  repeat split; try reflexivity.
  rewrite create_calls_app. unfold create_calls at 2. simpl. reflexivity.
Qed.

Lemma later_call_finds_created_partition_witness :
  let lookup :=
    find_or_create_range_partition (types := Scenario.int4_types)
                                   (search := find_owner_search)
      Scenario.parent 45 Scenario.INT4OID in
  let r1 := run (ddl := Scenario.appending) 0 Scenario.world0 lookup in
  let r2 := run (ddl := Scenario.appending) 1 (fst r1) lookup in
  snd r1 = Returns (Some 16388)
  /\ snd r2 = Returns (Some 16388)
  /\ fst r2 = fst r1
  /\ create_calls (trace (fst r2))
     = (create_calls (trace Scenario.world0) + 1)%nat.
Proof.
  apply (later_call_finds_created_partition Scenario.int4_types
           find_owner_search Scenario.appending 0%nat 1%nat Scenario.world0
           Scenario.parent 45 Scenario.INT4OID Scenario.descriptor
           (mkPartRelationInfo PT_RANGE Scenario.INT4OID
              (Scenario.entries ++ [mkRangeEntry 16388 45 46]) 0)
           (<[Scenario.parent :=
                mkPartRelationInfo PT_RANGE Scenario.INT4OID
                  (Scenario.entries ++ [mkRangeEntry 16388 45 46]) 0]>
              (catalog Scenario.world0))
           16388 (mkRangeEntry 16388 45 46)).
  - reflexivity.
  - reflexivity.
  - split; reflexivity.
  - reflexivity.
  - reflexivity.
  - reflexivity.
  - reflexivity.
Defined.

(** The racing schedule on the scenario: two creation calls. *)
Lemma racing_callers_call_twice_witness :
  let p := find_or_create_range_partition (types := Scenario.int4_types)
                                          (search := find_owner_search)
             Scenario.parent 45 Scenario.INT4OID in
  create_calls
    (trace (fst (interleave (ddl := Scenario.appending) racing_schedule
                   Scenario.world0 [Active p; Active p])))
  = (create_calls (trace Scenario.world0) + 2)%nat.
Proof.
  apply (racing_callers_call_twice Scenario.int4_types find_owner_search
           Scenario.appending Scenario.world0 Scenario.parent 45
           Scenario.INT4OID Scenario.descriptor
           (<[Scenario.parent :=
                mkPartRelationInfo PT_RANGE Scenario.INT4OID
                  (Scenario.entries ++ [mkRangeEntry 16388 45 46]) 0]>
              (catalog Scenario.world0))
           16388).
  - reflexivity.
  - reflexivity.
  - split; reflexivity.
  - reflexivity.
Defined.

(** * Properties of the string builders *)

(** X16.  The two entry points that build a check constraint name, compared
    on a valid relation and a column name.  For a user column (positive
    attribute number) the by-name entry point answers the same name as the
    by-number one called with the number the name resolves to.  For a system
    column (negative number) the by-name entry point still answers a name
    while the by-number one refuses the number.  For an unknown column both
    refuse, each with its own failure. *)
Theorem check_constraint_name_by_name_and_by_number
    (services : BuilderServices) (relid : Oid) (attname : string) :
  get_rel_type_id relid <> InvalidOid ->
  let attnum := get_attnum relid attname in
  let name := build_check_constraint_name_internal relid attnum in
  (0 < attnum ->
     build_check_constraint_name_attname relid attname = Text name
     /\ build_check_constraint_name_attnum relid attnum = Text name)
  /\ (attnum < 0 ->
     build_check_constraint_name_attname relid attname = Text name
     /\ build_check_constraint_name_attnum relid attnum
        = Refused InvalidAttributeNumber)
  /\ (attnum = 0 ->
     build_check_constraint_name_attname relid attname = Refused NoSuchColumn
     /\ build_check_constraint_name_attnum relid attnum
        = Refused InvalidAttributeNumber).
Proof.
  intros Hvalid attnum name. subst attnum name.
  unfold build_check_constraint_name_attname,
    build_check_constraint_name_attnum, text_to_cstring, cstring_to_text,
    InvalidAttrNumber.
  destruct (Z.eqb_spec (get_rel_type_id relid) InvalidOid) as [Hbad | _];
    [contradiction |].
  destruct (Z.eqb_spec (get_attnum relid attname) 0) as [Hz | Hnz];
    destruct (Z.ltb_spec (get_attnum relid attname) 0) as [Hneg | Hpos];
    simpl; repeat split; intros; try reflexivity; lia.
Qed.

(** The system column [ctid] of relation 16384. *)
Lemma check_constraint_name_by_name_and_by_number_witness :
  let services := BuilderScenario.services in
  (0 < -1 ->
     build_check_constraint_name_attname 16384 "ctid"
       = Text "pathman_t_m1_check"
     /\ build_check_constraint_name_attnum 16384 (-1)
       = Text "pathman_t_m1_check")
  /\ (-1 < 0 ->
     build_check_constraint_name_attname 16384 "ctid"
       = Text "pathman_t_m1_check"
     /\ build_check_constraint_name_attnum 16384 (-1)
        = Refused InvalidAttributeNumber)
  /\ (-1 = 0 ->
     build_check_constraint_name_attname 16384 "ctid" = Refused NoSuchColumn
     /\ build_check_constraint_name_attnum 16384 (-1)
        = Refused InvalidAttributeNumber).
Proof.
  apply (check_constraint_name_by_name_and_by_number BuilderScenario.services
           16384 "ctid").
  vm_compute. discriminate.
Defined.

(** X17.  [build_range_condition] refuses exactly when the two bound types
    differ.  Otherwise it answers the attribute name, a greater-or-equal test
    against the text of the lower bound, AND, the attribute name again and a
    less-than test against the text of the upper bound; both bound texts are
    put between single quotes when the bound type is a date or a string type
    and neither is otherwise, and the texts are inserted as they are. *)
Theorem range_condition_text
    (services : BuilderServices) (attname : string)
    (min_bound max_bound : Datum) (min_bound_type max_bound_type : Oid) :
  build_range_condition attname min_bound max_bound min_bound_type
    max_bound_type =
  if min_bound_type =? max_bound_type
  then
    let q := if is_date_type_internal min_bound_type
                || is_string_type_internal min_bound_type
             then "'" else "" in
    Text (attname +:+ " >= " +:+ q
          +:+ datum_to_cstring min_bound min_bound_type +:+ q
          +:+ " AND " +:+ attname +:+ " < " +:+ q
          +:+ datum_to_cstring max_bound max_bound_type +:+ q)
  else Refused BoundTypesDiffer.
Proof.
  unfold build_range_condition, text_to_cstring, cstring_to_text.
  destruct (min_bound_type =? max_bound_type); [| reflexivity].
  destruct (is_date_type_internal min_bound_type
            || is_string_type_internal min_bound_type); reflexivity.
Qed.
